(** * The reconciliation engine: status algebra, planner, runner, includes

    A shallow embedding of the Python sources

    - [giterop/runtime.py]: [Operational], [Resource], [ConfigurationSpec],
      [Configuration], [Task], [Job], [Manifest], [Runner];
    - [giterop/util.py]: [expandDict], [expandList], [getTemplate],
      [hasTemplate], [addTemplate], [mergeDicts], [diffDicts], [lookupPath],
      [registerClass], [lookupClass], [toEnum];
    - [unfurl/job.py]: [Job.filterConfig], [Job.getCandidateTasks],
      [Runner.isConfigAlreadyHandled];

    with theorems about what these functions compute.  The code is read
    with the semantics of Python 3 (dicts keep insertion order, [!=] is the
    negation of [__eq__], an [IntEnum] member never equals a str).  Python
    exceptions are values of [exn] carried by [result]; objects that the
    program shares and mutates live in explicit stores. *)

From Stdlib Require Import ZArith Lia Ascii String.
From stdpp Require Import base option strings list gmap functions pretty.

Set Warnings "-register-all".

Local Open Scope string_scope.
Local Open Scope Z_scope.
Local Open Scope type_scope.
Local Open Scope list_scope.

(** ** Enumerations ([IntEnum]s of runtime.py) *)

(** [Status = IntEnum("Status", "ok degraded error notapplied notpresent")]:
    the members are numbered from 1 in declaration order and compare as
    integers. *)
Module Status.

Inductive t : Set := ok | degraded | error | notapplied | notpresent.

Definition value (s : t) : Z :=
  match s with
  | ok => 1 | degraded => 2 | error => 3 | notapplied => 4 | notpresent => 5
  end.

Definition eqb (a b : t) : bool := value a =? value b.
Definition geb (a b : t) : bool := value a >=? value b.
Definition gtb (a b : t) : bool := value a >? value b.

#[global] Instance eq_dec : EqDecision t.
Proof. solve_decision. Defined.

End Status.

(** [Priority = IntEnum("Priority", "ignore optional required")]. *)
Module Priority.

Inductive t : Set := ignore | optional | required.

Definition value (p : t) : Z :=
  match p with ignore => 1 | optional => 2 | required => 3 end.

Definition eqb (a b : t) : bool := value a =? value b.

#[global] Instance eq_dec : EqDecision t.
Proof. solve_decision. Defined.

End Priority.

(** [Action = IntEnum("Action", "discover instantiate revert")]. *)
Module Action.

Inductive t : Set := discover | instantiate | revert.

Definition value (a : t) : Z :=
  match a with discover => 1 | instantiate => 2 | revert => 3 end.

Definition eqb (a b : t) : bool := value a =? value b.

#[global] Instance eq_dec : EqDecision t.
Proof. solve_decision. Defined.

End Action.

(** ** Exceptions *)

Inductive exn : Set :=
| AssertionError
| AttributeError
| NameError
| RecursionError
| GitErOpError (message : string).

Inductive result (A : Type) : Type :=
| Ok (a : A)
| Raise (e : exn).
Arguments Ok {A} a.
Arguments Raise {A} e.

#[global] Instance result_ret : MRet result := fun A a => Ok a.
#[global] Instance result_bind : MBind result := fun A B f m =>
  match m with
  | Ok a => f a
  | Raise e => Raise e
  end.

(** ** The operational model ([Operational], [OperationalInstance]) *)
Module Operational.

(** An [OperationalInstance] with the dependencies it reports: [_priority]
    and [_manualOverideStatus] may be [None] in the source; the dependencies
    are the objects [getOperationalDependencies()] yields, in order.  The
    computed status is a member of [Status], as it is for a [Resource], a
    [Configuration] and a [Job]. *)
Inductive t : Type :=
  mk (priority : option Priority.t)
     (computedStatus : Status.t)
     (manualOverideStatus : option Status.t)
     (dependencies : list t).

Definition priority (o : t) : option Priority.t :=
  let 'mk p _ _ _ := o in p.
Definition computedStatus (o : t) : Status.t :=
  let 'mk _ c _ _ := o in c.
Definition manualOverideStatus (o : t) : option Status.t :=
  let 'mk _ _ m _ := o in m.
Definition getOperationalDependencies (o : t) : list t :=
  let 'mk _ _ _ d := o in d.

(** [self.priority == p]; an unset priority equals no member. *)
Definition priority_is (o : t) (p : Priority.t) : bool :=
  match priority o with
  | Some q => Priority.eqb q p
  | None => false
  end.

(** The [required] property. *)
Definition required (o : t) : bool := priority_is o Priority.required.

Section Aggregate.

(** [aggregateStatus] reads [status] (and [operational], derived from it) of
    each dependency; the loop is written over the function that computes
    them. *)
Variable status_of : t -> Status.t.

Definition operational_of (o : t) : bool :=
  Status.eqb (status_of o) Status.ok || Status.eqb (status_of o) Status.degraded.

(** The [for] loop of [aggregateStatus]: [state] is the loop variable of that
    name, a [break] returns at once, a [continue] moves to the next item. *)
Fixpoint aggregate_loop (statuses : list t) (state : Status.t) : Status.t :=
  match statuses with
  | [] => state
  | s :: rest =>
      if priority_is s Priority.ignore then aggregate_loop rest state
      else if required s then
        if negb (operational_of s) then Status.error
        else if Status.eqb (status_of s) Status.degraded
             then aggregate_loop rest Status.degraded
             else aggregate_loop rest state
      else if negb (operational_of s) then aggregate_loop rest Status.degraded
      else aggregate_loop rest state
  end.

End Aggregate.

(** The [status] property. *)
Fixpoint status (o : t) : Status.t :=
  match o with
  | mk _ computed manual deps =>
      let status0 := match manual with Some m => m | None => computed end in
      if Status.geb status0 Status.error then status0
      else aggregate_loop status deps status0
  end.

(** The [operational] property. *)
Definition operational (o : t) : bool := operational_of status o.

(** [Operational.aggregateStatus(statuses, defaultStatus)]. *)
Definition aggregateStatus (statuses : list t) (defaultStatus : Status.t) : Status.t :=
  aggregate_loop status statuses defaultStatus.

(** The aggregation rule as the specification words it: [error] when the
    scan reaches a required dependency that is not operational; otherwise
    [degraded] when some dependency that is not ignored is required and
    degraded, or not required and not operational; otherwise the default. *)
Definition blocks (d : t) : bool :=
  negb (priority_is d Priority.ignore) && required d && negb (operational d).

Definition downgrades (d : t) : bool :=
  negb (priority_is d Priority.ignore)
  && ((required d && Status.eqb (status d) Status.degraded)
      || (negb (required d) && negb (operational d))).

Definition aggregateStatus_spec (statuses : list t) (defaultStatus : Status.t) : Status.t :=
  if existsb blocks statuses then Status.error
  else if existsb downgrades statuses then Status.degraded
  else defaultStatus.

(** A required dependency in [error], under an entity whose manual override
    is [notapplied]. *)
Definition failed_dependency : t :=
  mk (Some Priority.required) Status.error None [].
Definition overridden_notapplied : t :=
  mk None Status.ok (Some Status.notapplied) [failed_dependency].

End Operational.

(** ** Configuration specs and configurations *)

(** Python truthiness of a str, and of an attribute that is [None] or a str. *)
Definition truthy (s : string) : bool := negb (String.eqb s "").

Definition truthy_opt (o : option string) : bool :=
  match o with
  | Some s => truthy s
  | None => false
  end.

(** The value of a spec's [intent] attribute.  [ConfigurationSpec.__init__]
    stores what it is given: the default [Defaults.intent] and the value
    [manifest.py] passes ([toEnum(Action, ...)]) are members of [Action];
    a keyword taken from a template document as it is would be a str. *)
Inductive Intent : Type :=
| IntentEnum (a : Action.t)
| IntentStr (s : string).

(** Python's [==] on two such values: an [IntEnum] member never equals a
    str. *)
Definition Intent_eqb (a b : Intent) : bool :=
  match a, b with
  | IntentEnum x, IntentEnum y => Action.eqb x y
  | IntentStr x, IntentStr y => String.eqb x y
  | _, _ => false
  end.

Module ConfigurationSpec.

Record t : Type := mk {
  name : string;
  target : string;
  className : string;
  majorVersion : Z;
  minorVersion : string;
  intent : Intent
}.

(** [__init__]: the [assert] on the required arguments, then the six
    assignments. *)
Definition init (name target className : string) (majorVersion : option Z)
    (minorVersion : string) (intent : Intent) : result t :=
  match majorVersion with
  | Some major =>
      if truthy name && truthy target && truthy className
      then Ok (mk name target className major minorVersion intent)
      else Raise AssertionError
  | None => Raise AssertionError
  end.

(** [copy(intent=...)]: the constructor applied to the object's attributes
    with [intent] replaced. *)
Definition copy_intent (self : t) (intent' : Intent) : result t :=
  init (name self) (target self) (className self) (Some (majorVersion self))
       (minorVersion self) intent'.

(** [__eq__] against another [ConfigurationSpec]; [!=] is its negation. *)
Definition eqb (self other : t) : bool :=
  String.eqb (name self) (name other)
  && String.eqb (target self) (target other)
  && String.eqb (className self) (className other)
  && (majorVersion self =? majorVersion other)
  && String.eqb (minorVersion self) (minorVersion other)
  && Intent_eqb (intent self) (intent other).

(** [shouldRun] returns [Defaults.shouldRun]; [resolveParameters] returns
    the empty dict. *)
Definition shouldRun (self : t) : Priority.t := Priority.optional.
Definition resolveParameters (self : t) : list (string * string) := [].

End ConfigurationSpec.

Module Configuration.

(** A [Configuration]: the spec, the resource it belongs to (an object,
    named by its identity in the store below), the [OperationalInstance]
    attributes, the operational objects its dependency predicates and
    post-conditions produce, and the parameters recorded by
    [refreshParameters] ([None] before the first call). *)
Record t : Type := mk {
  configurationSpec : ConfigurationSpec.t;
  resource : nat;
  _priority : option Priority.t;
  computedStatus : Status.t;
  manualOverideStatus : option Status.t;
  dependencies : list Operational.t;
  parameters : option (list (string * string))
}.

Definition name (c : t) : string := ConfigurationSpec.name (configurationSpec c).
Definition intent (c : t) : Intent := ConfigurationSpec.intent (configurationSpec c).

(** The [priority] property of [Configuration]. *)
Definition priority (c : t) : Priority.t :=
  match _priority c with
  | None => ConfigurationSpec.shouldRun (configurationSpec c)
  | Some p => p
  end.

Definition as_operational (c : t) : Operational.t :=
  Operational.mk (Some (priority c)) (computedStatus c) (manualOverideStatus c)
                 (dependencies c).

(** The inherited [status] property. *)
Definition status (c : t) : Status.t := Operational.status (as_operational c).

(** [hasParametersChanged]: the parameters were recorded and differ from
    what [resolveParameters] returns now. *)
Definition hasParametersChanged (c : t) : bool :=
  match parameters c with
  | None => false
  | Some p =>
      negb (bool_decide (ConfigurationSpec.resolveParameters (configurationSpec c) = p))
  end.

End Configuration.

(** ** The planner's decisions ([Job.includeTask], [Job.checkForRepair],
       [Job.filterConfig]) *)
Module Job.

(** The job options a [Job] copies into itself. *)
Record t : Type := mk {
  resource : option string;
  configuration : option string;
  add : bool;
  update : bool;
  repair : option string;
  upgrade : bool;
  all : bool;
  readOnly : bool;
  requiredOnly : bool;
  revertObsolete : bool
}.

(** [JobOptions.defaults]. *)
Definition defaults : t := {|
  resource := None;
  configuration := None;
  add := true;
  update := true;
  repair := Some "error";
  upgrade := false;
  all := false;
  readOnly := false;
  requiredOnly := false;
  revertObsolete := false
|}.

Definition repair_is (self : t) (s : string) : bool :=
  match repair self with
  | Some r => String.eqb r s
  | None => false
  end.

Definition intent_is (i : Intent) (a : Action.t) : bool :=
  Intent_eqb i (IntentEnum a).

Definition checkForRepair (self : t) (lastChange : Configuration.t)
  : result (option ConfigurationSpec.t) :=
  let spec := Configuration.configurationSpec lastChange in
  if Configuration.hasParametersChanged lastChange && update self then Ok (Some spec)
  else if Status.eqb (Configuration.status lastChange) Status.ok
          || negb (truthy_opt (repair self)) then Ok None
  else if repair_is self "degraded" then
    if Status.gtb (Configuration.status lastChange) Status.ok
    then Ok (Some spec) else Raise AssertionError
  else if Status.eqb (Configuration.status lastChange) Status.degraded then
    if repair_is self "error" then Ok None else Raise AssertionError
  else
    if repair_is self "error" then Ok (Some spec) else Raise AssertionError.

Definition includeTask (self : t) (config : option ConfigurationSpec.t)
    (lastChange : option Configuration.t) : result (option ConfigurationSpec.t) :=
  if negb (bool_decide (is_Some config) || bool_decide (is_Some lastChange))
  then Raise AssertionError
  else
    match (if all self then config else None) with
    | Some c => Ok (Some c)
    | None =>
        match config, lastChange with
        | Some c, None => if add self then Ok (Some c) else Ok None
        | None, None => Raise AttributeError
        | None, Some lc =>
            let spec := Configuration.configurationSpec lc in
            if revertObsolete self
            then s ← ConfigurationSpec.copy_intent spec (IntentEnum Action.revert);
                 Ok (Some s)
            else if all self then Ok (Some spec)
            else checkForRepair self lc
        | Some c, Some lc =>
            let spec := Configuration.configurationSpec lc in
            if negb (ConfigurationSpec.eqb spec c) then
              if intent_is (ConfigurationSpec.intent c) Action.revert
                 && Status.eqb (Configuration.status lc) Status.notpresent
              then Ok None
              else if upgrade self then Ok (Some c)
              else if Status.eqb (Configuration.status lc) Status.notpresent
                      && negb (Intent_eqb (ConfigurationSpec.intent spec)
                                          (ConfigurationSpec.intent c))
                      && add self
              then Ok (Some c)
              else if update self
                      && (negb (intent_is (ConfigurationSpec.intent c) Action.revert)
                          && negb (ConfigurationSpec.majorVersion spec
                                   =? ConfigurationSpec.majorVersion c))
              then Ok (Some c)
              else checkForRepair self lc
            else checkForRepair self lc
        end
    end.

(** [filterConfig]: [config.intent] is compared with the str ['discover'],
    and [config.required] is read from a [ConfigurationSpec], which has no
    such attribute. *)
Definition filterConfig (self : t) (config : ConfigurationSpec.t)
  : result (option ConfigurationSpec.t) :=
  if readOnly self
     && negb (Intent_eqb (ConfigurationSpec.intent config) (IntentStr "discover"))
  then Ok None
  else if requiredOnly self then Raise AttributeError
  else if truthy_opt (resource self)
          && negb (bool_decide (Some (ConfigurationSpec.target config) = resource self))
  then Ok None
  else if truthy_opt (configuration self)
          && negb (bool_decide (Some (ConfigurationSpec.name config) = configuration self))
  then Ok None
  else Ok (Some config).

(** A configuration applied with version 1.0 whose spec the user then edits
    to 1.1 (same major version), and a job with the default options. *)
Definition applied_spec : ConfigurationSpec.t :=
  ConfigurationSpec.mk "web" "server" "ShellConfigurator" 1 "0"
                       (IntentEnum Action.instantiate).
Definition edited_spec : ConfigurationSpec.t :=
  ConfigurationSpec.mk "web" "server" "ShellConfigurator" 1 "1"
                       (IntentEnum Action.instantiate).
Definition last_applied : Configuration.t :=
  Configuration.mk applied_spec 0%nat None Status.ok None [] (Some []).

(** A read-only job and a spec whose intent is [Action.discover]. *)
Definition readOnly_job : t :=
  mk None None true true (Some "error") false false true false false.
Definition discover_spec : ConfigurationSpec.t :=
  ConfigurationSpec.mk "probe" "server" "ShellConfigurator" 1 ""
                       (IntentEnum Action.discover).

End Job.

(** ** Objects and the store

    Resources and configurations are objects that tasks, jobs and other
    resources share and mutate.  An object is named by its identity (a
    number) and the store gives the current attributes of every object. *)

Module Resource.

(** The attributes of a [Resource] object.  [configurations],
    [excludedConfigurations], [container] and [resources] hold references.
    [resources] is [None] as long as [__init__] has not assigned it: reading
    it then raises [AttributeError]. *)
Record t : Type := mk {
  name : string;
  attributes : gmap string string;
  configurations : gmap string nat;
  excludedConfigurations : gmap string nat;
  container : option nat;
  resources : option (list nat)
}.

Definition set_attributes (a : gmap string string) (r : t) : t :=
  mk (name r) a (configurations r) (excludedConfigurations r) (container r) (resources r).
Definition set_configurations (c : gmap string nat) (r : t) : t :=
  mk (name r) (attributes r) c (excludedConfigurations r) (container r) (resources r).
Definition set_excludedConfigurations (c : gmap string nat) (r : t) : t :=
  mk (name r) (attributes r) (configurations r) c (container r) (resources r).
Definition set_resources (l : list nat) (r : t) : t :=
  mk (name r) (attributes r) (configurations r) (excludedConfigurations r)
     (container r) (Some l).

(** Reading [self.resources]. *)
Definition get_resources (r : t) : result (list nat) :=
  match resources r with
  | Some l => Ok l
  | None => Raise AttributeError
  end.

End Resource.

Record World : Type := mkWorld {
  resource_at : nat -> Resource.t;
  configuration_at : nat -> Configuration.t;
  next_resource : nat;
  next_configuration : nat
}.

Definition update_resource (f : Resource.t -> Resource.t) (r : nat) (w : World) : World :=
  mkWorld (alter f r (resource_at w)) (configuration_at w)
          (next_resource w) (next_configuration w).

Definition update_configuration (f : Configuration.t -> Configuration.t) (c : nat)
    (w : World) : World :=
  mkWorld (resource_at w) (alter f c (configuration_at w))
          (next_resource w) (next_configuration w).

Definition set_computedStatus (s : Status.t) (c : Configuration.t) : Configuration.t :=
  Configuration.mk (Configuration.configurationSpec c) (Configuration.resource c)
    (Configuration._priority c) s (Configuration.manualOverideStatus c)
    (Configuration.dependencies c) (Configuration.parameters c).

Definition set_parameters (p : list (string * string)) (c : Configuration.t)
  : Configuration.t :=
  Configuration.mk (Configuration.configurationSpec c) (Configuration.resource c)
    (Configuration._priority c) (Configuration.computedStatus c)
    (Configuration.manualOverideStatus c) (Configuration.dependencies c) (Some p).

(** [Configuration.__init__(spec, resource, status)]: a new object with the
    [OperationalInstance] defaults, after the [assert] that the resource is
    the spec's target. *)
Definition Configuration_init (w : World) (spec : ConfigurationSpec.t) (resource : nat)
    (status : Status.t) : result (World * nat) :=
  if String.eqb (Resource.name (resource_at w resource)) (ConfigurationSpec.target spec)
  then
    let self := next_configuration w in
    let obj := Configuration.mk spec resource None status None [] None in
    Ok (mkWorld (resource_at w) (<[self := obj]> (configuration_at w))
                (next_resource w) (S self), self)
  else Raise AssertionError.

(** [Resource.setConfiguration(configuration)]. *)
Definition setConfiguration (w : World) (self configuration : nat) : World :=
  let c := configuration_at w configuration in
  if Status.eqb (Configuration.status c) Status.notpresent
     && Intent_eqb (Configuration.intent c) (IntentEnum Action.revert)
  then
    update_resource
      (fun r =>
         Resource.set_excludedConfigurations
           (<[Configuration.name c := configuration]> (Resource.excludedConfigurations r))
           (Resource.set_configurations
              (delete (Configuration.name c) (Resource.configurations r)) r))
      self w
  else
    update_resource
      (fun r =>
         Resource.set_configurations
           (<[Configuration.name c := configuration]> (Resource.configurations r)) r)
      self w.

(** [Resource.__init__(name, attributes, configurations, parent, children)]
    on a new object [self]: the assignments in the order of the source.  The
    statement under [if parent:] reads [self.resources] before the last line
    assigns it. *)
Definition Resource_init (w : World) (name : string)
    (attributes : option (gmap string string)) (configurations : option (list nat))
    (parent : option nat) (children : option (list nat)) : result (World * nat) :=
  let self := next_resource w in
  let obj :=
    Resource.mk name (default ∅ attributes)
      (foldl (fun d c => <[Configuration.name (configuration_at w c) := c]> d) ∅
             (default [] configurations))
      ∅ parent None in
  obj ← match parent with
        | Some _ =>
            l ← Resource.get_resources obj;
            Ok (Resource.set_resources (l ++ [self]) obj)
        | None => Ok obj
        end;
  let obj := Resource.set_resources (default [] children) obj in
  Ok (mkWorld (<[self := obj]> (resource_at w)) (configuration_at w)
              (S self) (next_configuration w), self).

(** The loop of [Resource.findResource] over [self.resources]: the body
    returns the name [match], which nothing defines. *)
Fixpoint findResource_loop (w : World) (children : list nat) (resourceid : string)
  : result (option nat) :=
  match children with
  | [] => Ok None
  | r :: rest =>
      if String.eqb (Resource.name (resource_at w r)) resourceid
      then Raise NameError
      else findResource_loop w rest resourceid
  end.

Definition findResource (w : World) (self : nat) (resourceid : string)
  : result (option nat) :=
  if String.eqb (Resource.name (resource_at w self)) resourceid then Ok (Some self)
  else
    children ← Resource.get_resources (resource_at w self);
    findResource_loop w children resourceid.

(** Whether a resource named [resourceid] lies [depth] levels below [self]
    (level 0 is [self], level 1 its children). *)
Fixpoint named_at_depth (w : World) (depth : nat) (self : nat) (resourceid : string)
  : bool :=
  match depth with
  | O => String.eqb (Resource.name (resource_at w self)) resourceid
  | S d =>
      existsb (fun r => named_at_depth w d r resourceid)
              (default [] (Resource.resources (resource_at w self)))
  end.

Module Manifest.

Record t : Type := mk {
  rootResource : nat;
  specs : list ConfigurationSpec.t
}.

Definition getRootResource (self : t) : nat := rootResource self.

(** [createResource(templateName, name, attributes, parent,
    configurationSpecs)]. *)
Definition createResource (w : World) (self : t) (templateName : option string)
    (name : option string) (attributes : option (gmap string string))
    (parent : option nat) (configurationSpecs : option (list ConfigurationSpec.t))
  : result (World * nat) :=
  if negb (truthy_opt name) then Raise AssertionError
  else
    found ← findResource w (rootResource self) (default "" name);
    if bool_decide (is_Some found) then Raise AssertionError
    else
      '(w, resource) ← Resource_init w (default "" name) attributes None
                         (Some (default (getRootResource self) parent)) None;
      w ← foldl (fun acc spec =>
                   w ← acc;
                   '(w, c) ← Configuration_init w spec resource Status.notapplied;
                   Ok (setConfiguration w resource c))
                (Ok w) (default [] configurationSpecs);
      Ok (w, resource).

End Manifest.

(** A store with a root resource ["root"] (object 0) that has one child
    ["web"] (object 1), which has one child ["db"] (object 2). *)
Definition blank_resource : Resource.t := Resource.mk "" ∅ ∅ ∅ None (Some []).
Definition blank_configuration : Configuration.t :=
  Configuration.mk (ConfigurationSpec.mk "" "" "" 0 "" (IntentEnum Action.instantiate))
                   0%nat None Status.notapplied None [] None.

Definition tree_resources (r : nat) : Resource.t :=
  match r with
  | 0%nat => Resource.mk "root" ∅ ∅ ∅ None (Some [1%nat])
  | 1%nat => Resource.mk "web" ∅ ∅ ∅ (Some 0%nat) (Some [2%nat])
  | 2%nat => Resource.mk "db" ∅ ∅ ∅ (Some 1%nat) (Some [])
  | _ => blank_resource
  end.

Definition tree_world : World :=
  mkWorld tree_resources (fun _ => blank_configuration) 3%nat 0%nat.

(** ** Tasks ([Task]) *)
Module Task.

(** The attributes of a [Task] that the functions below read or write.
    [updateResources] is the dict from a resource's name to the pair of the
    resource and the copy of its attributes taken at the task's first update
    of it, in insertion order; [errors] collects the messages of the
    [GitErOpTaskError]s created for the task. *)
Record t : Type := mk {
  oldConfiguration : option nat;
  currentConfiguration : nat;
  newConfiguration : nat;
  updateResources : list (string * (nat * gmap string string));
  errors : list string
}.

Definition set_currentConfiguration (c : nat) (self : t) : t :=
  mk (oldConfiguration self) c (newConfiguration self) (updateResources self)
     (errors self).
Definition set_updateResources (u : list (string * (nat * gmap string string)))
    (self : t) : t :=
  mk (oldConfiguration self) (currentConfiguration self) (newConfiguration self) u
     (errors self).

(** [GitErOpTaskError(task, message)]: the constructor appends the error to
    [task.errors]. *)
Definition GitErOpTaskError (self : t) (message : string) : t :=
  mk (oldConfiguration self) (currentConfiguration self) (newConfiguration self)
     (updateResources self) (errors self ++ [message]).

(** [name in self.updateResources]. *)
Definition recorded (self : t) (name : string) : bool :=
  existsb (fun e => String.eqb (fst e) name) (updateResources self).

(** [updateResource(resource, updated, deleted)]: the first update of a
    resource saves a copy of its attributes; then the keys of [deleted] are
    removed and [updated] is merged in. *)
Definition updateResource (w : World) (self : t) (resource : nat)
    (updated : gmap string string) (deleted : list string) : World * t :=
  let r := resource_at w resource in
  let self :=
    if recorded self (Resource.name r) then self
    else set_updateResources
           (updateResources self ++ [(Resource.name r, (resource, Resource.attributes r))])
           self in
  (update_resource
     (fun r => Resource.set_attributes
                 (updated ∪ foldl (fun a key => delete key a) (Resource.attributes r) deleted)
                 r)
     resource w,
   self).

(** [revertChanges]: every saved resource gets its saved attributes back
    ([resource.attributes = attributes], one entry at a time), and the dict is
    emptied. *)
Definition revert_step (w : World) (e : string * (nat * gmap string string)) : World :=
  update_resource (Resource.set_attributes (snd (snd e))) (fst (snd e)) w.

Definition revertChanges (w : World) (self : t) : World * t :=
  (foldl revert_step w (updateResources self), set_updateResources [] self).

(** The resources a task has saved. *)
Definition saved_resources (self : t) : list nat :=
  map (fun e => fst (snd e)) (updateResources self).

(** [updateResources] is a dict keyed by the name of the resource each entry
    saves: the keys are distinct and each is the name of its resource. *)
Definition update_set_ok (w : World) (self : t) : Prop :=
  NoDup (map fst (updateResources self))
  /\ Forall (fun e => Resource.name (resource_at w (fst (snd e))) = fst e)
            (updateResources self).

(** [start]: the new configuration becomes the current one, on the task and
    on its resource, and its parameters are recorded.  The generator is made
    by the caller's choice of [run] or [dryRun] and runs no code yet. *)
Definition start (w : World) (self : t) : World * t :=
  let config := newConfiguration self in
  let self := set_currentConfiguration config self in
  let w := setConfiguration w (Configuration.resource (configuration_at w config)) config in
  let w := update_configuration
             (fun c => set_parameters
                         (ConfigurationSpec.resolveParameters (Configuration.configurationSpec c))
                         c)
             config w in
  (w, self).

(** [finished(result)], with [status] for the argument [result]; the value
    returned is [self.newConfiguration]. *)
Definition finished (w : World) (self : t) (status : Status.t)
  : result (World * t * nat) :=
  let w := update_configuration (set_computedStatus status) (currentConfiguration self) w in
  let resource := Configuration.resource (configuration_at w (currentConfiguration self)) in
  if Status.eqb status Status.notapplied then
    '(w, self) ←
      match oldConfiguration self with
      | Some old =>
          if String.eqb (Configuration.name (configuration_at w old))
                        (Configuration.name (configuration_at w (newConfiguration self)))
          then
            let self := set_currentConfiguration old self in
            let w := setConfiguration w resource old in
            let new := newConfiguration self in
            Ok (update_resource
                  (fun r => Resource.set_excludedConfigurations
                              (<[Configuration.name (configuration_at w new) := new]>
                                 (Resource.excludedConfigurations r)) r)
                  resource w,
                self)
          else Raise AssertionError
      | None => Ok (w, self)
      end;
    let '(w, self) := revertChanges w self in
    Ok (w, self, newConfiguration self)
  else if Status.eqb status Status.notpresent
          && Intent_eqb (Configuration.intent (configuration_at w (currentConfiguration self)))
                        (IntentEnum Action.revert)
  then Ok (setConfiguration w resource (newConfiguration self), self, newConfiguration self)
  else Ok (w, self, newConfiguration self).

End Task.

(** ** Running a task ([Job.runTask], [Job.canRunTask]) *)

(** What the runner sends into a configurator's generator: [None] at first,
    then the value of the sub-task or sub-job it ran ([Status.notapplied] or
    the configuration [Task.finished] returns; the root resource [Job.run]
    returns). *)
Inductive Sent : Type :=
| SentNone
| SentStatus (s : Status.t)
| SentConfiguration (c : nat)
| SentResource (r : nat).

(** A configurator's generator is the function that [send] runs up to the
    next [yield]: from the value sent, the store and the task (which the
    configurator updates through the [Task] interface) to an exception
    ([StopIteration] included) or a yielded value and the rest of the
    generator.  A yielded [Task] comes with its configurator; a yielded [Job]
    is given by what running it does to the store, or the exception it ends
    in. *)
Inductive Generator : Type :=
| Gen (send : Sent -> World -> Task.t -> Outcome)
with Outcome : Type :=
| Raises (w : World) (t : Task.t)
| Yields (w : World) (t : Task.t) (v : Yielded) (rest : Generator)
with Yielded : Type :=
| YieldTask (task : Task.t) (configurator : Configurator)
| YieldJob (run : World -> result (World * Sent))
| YieldStatus (s : Status.t)
| YieldOther
with Configurator : Type :=
| mkConfigurator (canRun : option bool) (run : Generator) (dryRun : Generator).

(** What a call of [runTask] leaves: the store, the task, whether
    [generator.close()] was called, and the value returned. *)
Record Ran : Type := mkRan {
  world : World;
  task : Task.t;
  closed : bool;
  returned : Sent
}.

(** [canRunTask] with the answer of [configurator.canRun(task)] ([None]: it
    raised); [task.validateParameters()] and the spec's [canRun] are [True]. *)
Definition canRunTask (canRun : option bool) (w : World) (t : Task.t)
  : World * Task.t * bool :=
  let '(t, canRun) :=
    match canRun with
    | Some b => (t, b)
    | None => (Task.GitErOpTaskError t "shouldRun failed", false)
    end in
  if canRun then (w, t, true)
  else
    let config := Task.newConfiguration t in
    let w := update_configuration (set_computedStatus Status.notapplied) config w in
    let c := configuration_at w config in
    let w :=
      match Task.oldConfiguration t with
      | Some _ =>
          update_resource
            (fun r => Resource.set_excludedConfigurations
                        (<[Configuration.name c := config]> (Resource.excludedConfigurations r))
                        r)
            (Configuration.resource c) w
      | None => w
      end in
    (w, t, false).

Section RunTask.

(** [self.job.dryRun]. *)
Variable dryRun : bool.

(** [runTask]: [drive] is the [while True] loop, entered with the generator
    and the value to send. *)
Fixpoint drive (g : Generator) (change : Sent) (w : World) (t : Task.t) {struct g}
  : result Ran :=
  match g with
  | Gen send =>
      match send change w t with
      | Raises w t =>
          let t := Task.GitErOpTaskError t "configurator.run failed" in
          '(w, t, c) ← Task.finished w t Status.error;
          Ok (mkRan w t true (SentConfiguration c))
      | Yields w t v rest =>
          match v with
          | YieldTask sub configurator =>
              r ← runTask configurator sub w;
              drive rest (returned r) (world r) t
          | YieldJob run =>
              '(w, change) ← run w;
              drive rest change w t
          | YieldStatus s =>
              '(w, t, c) ← Task.finished w t s;
              Ok (mkRan w t true (SentConfiguration c))
          | YieldOther =>
              let t := Task.GitErOpTaskError t "unexpected result from configurator" in
              '(w, t, c) ← Task.finished w t Status.error;
              Ok (mkRan w t true (SentConfiguration c))
          end
      end
  end
with runTask (configurator : Configurator) (t : Task.t) (w : World) {struct configurator}
  : result Ran :=
  match configurator with
  | mkConfigurator canRun run dry =>
      let '(w, t, can) := canRunTask canRun w t in
      if can then
        let '(w, t) := Task.start w t in
        drive (if dryRun then dry else run) SentNone w t
      else Ok (mkRan w t false (SentStatus Status.notapplied))
  end.

End RunTask.

(** A store with one resource ["server"] (object 0) and three
    configurations on it: the applied ["web"] (object 0), its edited version
    (object 1) and a ["helper"] configuration (object 2). *)
Definition helper_spec : ConfigurationSpec.t :=
  ConfigurationSpec.mk "helper" "server" "ShellConfigurator" 1 ""
                       (IntentEnum Action.instantiate).

Definition server_resources (r : nat) : Resource.t :=
  match r with
  | 0%nat => Resource.mk "server" {["port" := "80"]} {["web" := 0%nat]} ∅ None (Some [])
  | _ => blank_resource
  end.

Definition server_configurations (c : nat) : Configuration.t :=
  match c with
  | 0%nat => Job.last_applied
  | 1%nat => Configuration.mk Job.edited_spec 0%nat None Status.ok None [] None
  | 2%nat => Configuration.mk helper_spec 0%nat None Status.notapplied None [] None
  | _ => blank_configuration
  end.

Definition server_world : World :=
  mkWorld server_resources server_configurations 1%nat 3%nat.

(** A generator that is exhausted: the next [send] raises [StopIteration]. *)
Definition exhausted : Generator := Gen (fun _ w t => Raises w t).

(** The base class's [Configurator.run]: [yield None]. *)
Definition Configurator_run : Generator :=
  Gen (fun _ w t => Yields w t YieldOther exhausted).

Definition base_configurator : Configurator :=
  mkConfigurator (Some true) Configurator_run Configurator_run.

(** A sub-task on ["helper"] whose configurator sets the attribute ["owner"]
    of the server and reports [ok]. *)
Definition helper_task : Task.t := Task.mk None 2%nat 2%nat [] [].

Definition helper_configurator : Configurator :=
  let run :=
    Gen (fun _ w t =>
           let '(w, t) := Task.updateResource w t 0%nat {["owner" := "helper"]} [] in
           Yields w t (YieldStatus Status.ok) exhausted) in
  mkConfigurator (Some true) run run.

(** The task for the edited ["web"]: its configurator sets ["port"], yields
    the helper sub-task, and then reports [notapplied]. *)
Definition web_task : Task.t := Task.mk (Some 0%nat) 0%nat 1%nat [] [].

Definition web_configurator : Configurator :=
  let run :=
    Gen (fun _ w t =>
           let '(w, t) := Task.updateResource w t 0%nat {["port" := "8080"]} [] in
           Yields w t (YieldTask helper_task helper_configurator)
             (Gen (fun _ w t => Yields w t (YieldStatus Status.notapplied) exhausted))) in
  mkConfigurator (Some true) run run.

(** Reading an attribute of a resource, or the computed status of a
    configuration, in the store a run leaves. *)
Definition attribute_after (r : result Ran) (resource : nat) (key : string)
  : result (option string) :=
  ran ← r; Ok (Resource.attributes (resource_at (world ran) resource) !! key).

Definition computedStatus_after (r : result Ran) (configuration : nat)
  : result Status.t :=
  ran ← r; Ok (Configuration.computedStatus (configuration_at (world ran) configuration)).

(** The store and the ["web"] task after the task's update of ["port"]. *)
Definition web_task_updated : World * Task.t :=
  Task.updateResource server_world web_task 0%nat {["port" := "8080"]} [].

(** ** Work done and candidate tasks ([Runner], [Job.getCandidateTasks]) *)
Module Runner.

(** [Runner.workDone]: an [OrderedDict] from the pair of a resource name and
    a configuration name to the task added for it. *)
Definition workDone : Type := list ((string * string) * Task.t).

Definition key_eqb (a b : string * string) : bool :=
  String.eqb (fst a) (fst b) && String.eqb (snd a) (snd b).

(** [d[key] = task] on an ordered dict: a present key keeps its place. *)
Fixpoint assign (d : workDone) (key : string * string) (task : Task.t) : workDone :=
  match d with
  | [] => [(key, task)]
  | (k, v) :: rest =>
      if key_eqb k key then (k, task) :: rest else (k, v) :: assign rest key task
  end.

Definition addWork (w : World) (self : workDone) (task : Task.t) : workDone :=
  let config := configuration_at w (Task.currentConfiguration task) in
  assign self
         (Resource.name (resource_at w (Configuration.resource config)),
          Configuration.name config)
         task.

Definition isConfigAlreadyHandled (self : workDone) (configSpec : ConfigurationSpec.t)
  : bool :=
  existsb (fun e => key_eqb (fst e)
                      (ConfigurationSpec.target configSpec,
                       ConfigurationSpec.name configSpec))
          self.

End Runner.

(** The arguments of a [Task(self, config, lastChange)] that
    [getCandidateTasks] yields. *)
Record Candidate : Type := mkCandidate {
  candidate_spec : ConfigurationSpec.t;
  candidate_lastChange : option nat
}.

(** The first inner loop of [Job.getCandidateTasks], for one resource: from
    the wanted specs of the resource that are still to visit and the dict
    [existing] (a copy of the resource's configurations), run to the next
    [yield].  The result is the candidate with the state to resume from, or
    [None] when the loop ends.  [workDone] is read at each turn; between two
    yields the runner adds and runs the task yielded first. *)
Fixpoint next_wanted (job : Job.t) (workDone : Runner.workDone) (w : World)
    (existing : gmap string nat) (wanted : list ConfigurationSpec.t)
  : result (option (Candidate * gmap string nat * list ConfigurationSpec.t)) :=
  match wanted with
  | [] => Ok None
  | config :: rest =>
      if Runner.isConfigAlreadyHandled workDone config
      then next_wanted job workDone w existing rest
      else
        let lastChange := existing !! ConfigurationSpec.name config in
        let existing := delete (ConfigurationSpec.name config) existing in
        included ← Job.includeTask job (Some config) (configuration_at w <$> lastChange);
        match included with
        | Some config =>
            kept ← Job.filterConfig job config;
            match kept with
            | Some _ => Ok (Some (mkCandidate config lastChange, existing, rest))
            | None => next_wanted job workDone w existing rest
            end
        | None => next_wanted job workDone w existing rest
        end
  end.

(** ** The later runner (unfurl/job.py) *)
Module Unfurl.

(** Modelled from the spec: the configuration spec of a task request.  The
    class ([ConfigurationSpec] of unfurl/configurator.py) is not among the
    sources; the fields are the attributes that job.py reads. *)
Record ConfigurationSpec : Type := mkConfigurationSpec {
  name : string;
  action : string;
  intent : Intent;
  required : bool
}.

(** Modelled from the spec: the target instance of a task request, of which
    job.py reads the name. *)
Record Instance : Type := mkInstance {
  instance_name : string
}.

(** The options [filterConfig] reads. *)
Record JobOptions : Type := mkJobOptions {
  readonly : bool;
  requiredOnly : bool;
  resource : option string;
  resources : option (list string)
}.

(** A [ConfigTask] as [createTask] builds it: its change id is the job's
    until the task finishes. *)
Record ConfigTask : Type := mkConfigTask {
  configSpec : ConfigurationSpec;
  target : Instance;
  reason : option string;
  changeId : nat
}.

Record Job : Type := mkJob {
  jobOptions : JobOptions;
  job_changeId : nat;
  workDone : list (string * ConfigTask)
}.

(** The runner with its current job (the job that is running, here). *)
Record Runner : Type := mkRunner {
  currentJob : Job
}.

(** [Job.filterConfig(config, target)]: the spec or [None], and the
    reason. *)
Definition filterConfig (self : Job) (config : ConfigurationSpec) (target : Instance)
  : option ConfigurationSpec * option string :=
  let opts := jobOptions self in
  if readonly opts && negb (Intent_eqb (intent config) (IntentStr "discover"))
  then (None, Some "read only")
  else if requiredOnly opts && negb (required config) then (None, Some "required")
  else if truthy_opt (resource opts)
          && negb (bool_decide (Some (instance_name target) = resource opts))
  then (None, Some "resource")
  else if match resources opts with
          | Some (n :: l) => negb (bool_decide (instance_name target ∈ n :: l))
          | _ => false
          end
  then (None, Some "resources")
  else (Some config, None).

(** [Runner.isConfigAlreadyHandled]: [return False]; the lookup in
    [workDone] is commented out in the source. *)
Definition isConfigAlreadyHandled (self : Runner) (configSpec : ConfigurationSpec)
  : bool := false.

Definition createTask (self : Job) (configSpec : ConfigurationSpec) (target : Instance)
    (reason : option string) : ConfigTask :=
  mkConfigTask configSpec target reason (job_changeId self).

Fixpoint assign (d : list (string * ConfigTask)) (key : string) (task : ConfigTask)
  : list (string * ConfigTask) :=
  match d with
  | [] => [(key, task)]
  | (k, v) :: rest =>
      if String.eqb k key then (k, task) :: rest else (k, v) :: assign rest key task
  end.

(** [Runner.addWork(task)], for a task of the current job. *)
Definition addWork (self : Runner) (task : ConfigTask) : Runner :=
  let key := (instance_name (target task) ++ ":" ++ name (configSpec task) ++ ":"
              ++ action (configSpec task) ++ ":" ++ pretty (changeId task))%string in
  let job := currentJob self in
  mkRunner (mkJob (jobOptions job) (job_changeId job) (assign (workDone job) key task)).

(** [Job.getCandidateTasks], run to the next [yield]: [plan] is what
    [self.plan.executePlan()] still has to give (the planner is not among the
    sources).  The result is the task yielded and the rest of the plan, or
    [None] when the plan is exhausted. *)
Fixpoint next_candidate (self : Job) (runner : Runner)
    (plan : list (ConfigurationSpec * Instance * option string))
  : option (ConfigTask * list (ConfigurationSpec * Instance * option string)) :=
  match plan with
  | [] => None
  | (configSpec, target, reason) :: rest =>
      match fst (filterConfig self configSpec target) with
      | None => next_candidate self runner rest
      | Some configSpec =>
          if isConfigAlreadyHandled runner configSpec
          then next_candidate self runner rest
          else Some (createTask self configSpec target reason, rest)
      end
  end.

(** The operation ["web"] on the instance ["server"], and a job with no
    filter.  [handled_runner] is the job's runner after a task for ["web"] on
    ["server"] was made and recorded, as [runTask] does for a [TaskRequest]
    that a configurator yields ([createTask], then [addWork]). *)
Definition web_spec : ConfigurationSpec :=
  mkConfigurationSpec "web" "configure" (IntentEnum Action.instantiate) true.
Definition server : Instance := mkInstance "server".
Definition plain_job : Job := mkJob (mkJobOptions false false None None) 1%nat [].
Definition handled_runner : Runner :=
  addWork (mkRunner plain_job) (createTask plain_job web_spec server None).

(** A read-only job and a spec whose intent is [Action.discover]. *)
Definition readonly_job : Job := mkJob (mkJobOptions true false None None) 1%nat [].
Definition discover_spec : ConfigurationSpec :=
  mkConfigurationSpec "probe" "discover" (IntentEnum Action.discover) true.

End Unfurl.

(** ** Include directives ([expandDict], [expandList], [getTemplate],
       [mergeDicts], [lookupPath] of util.py) *)
Module Includes.

(** A YAML or JSON value; a map keeps its keys in insertion order. *)
Inductive Value : Type :=
| VNone
| VStr (s : string)
| VInt (z : Z)
| VList (l : list Value)
| VDict (d : list (string * Value)).

Definition Dict : Type := list (string * Value).

(** A component of a path: a key of a map or an index of a list. *)
Inductive Seg : Set :=
| SegKey (s : string)
| SegIdx (i : nat).

#[global] Instance Seg_eq_dec : EqDecision Seg.
Proof. solve_decision. Defined.

(** [includes]: from the path of an include site to the directives found
    there. *)
Definition Includes : Type := list (list Seg * list (string * Value)).

(** Strings: [s[n:]] and [s.split('/')]. *)
Definition drop_chars (n : nat) (s : string) : string :=
  String.substring n (String.length s - n) s.

Fixpoint split_slash (s : string) : list string :=
  match s with
  | EmptyString => [""]
  | String a rest =>
      let r := split_slash rest in
      if Ascii.eqb a "/"%char then "" :: r
      else match r with
           | h :: t => String a h :: t
           | [] => [String a ""]
           end
  end.

(** Dicts: [key in d], [d[key]] or [d.get(key)], [d[key] = v]. *)
Fixpoint dict_get (d : Dict) (key : string) : option Value :=
  match d with
  | [] => None
  | (k, v) :: rest => if String.eqb k key then Some v else dict_get rest key
  end.

Definition dict_mem (d : Dict) (key : string) : bool :=
  bool_decide (is_Some (dict_get d key)).

Fixpoint dict_set (d : Dict) (key : string) (v : Value) : Dict :=
  match d with
  | [] => [(key, v)]
  | (k, x) :: rest =>
      if String.eqb k key then (k, v) :: rest else (k, x) :: dict_set rest key v
  end.

(** Truthiness, and [v == s] for a str [s]. *)
Definition Value_truthy (v : Value) : bool :=
  match v with
  | VNone => false
  | VStr s => truthy s
  | VInt z => negb (z =? 0)
  | VList l => negb (bool_decide (l = []))
  | VDict d => negb (bool_decide (d = []))
  end.

Definition Value_is_str (v : Value) (s : string) : bool :=
  match v with
  | VStr x => String.eqb x s
  | _ => false
  end.

Definition mergeStrategyKey : string := "+%".

(** [includes.setdefault(path, []).append(entry)]. *)
Fixpoint includes_append (includes : Includes) (path : list Seg)
    (entry : string * Value) : Includes :=
  match includes with
  | [] => [(path, [entry])]
  | (p, l) :: rest =>
      if bool_decide (p = path) then (p, l ++ [entry]) :: rest
      else (p, l) :: includes_append rest path entry
  end.

(** [lookupPath(doc, path)]. *)
Fixpoint lookupPath (template : Value) (path : list Seg) : Value :=
  match path with
  | [] => template
  | segment :: rest =>
      match template, segment with
      | VDict d, SegKey key =>
          match dict_get d key with
          | Some v => lookupPath v rest
          | None => VNone
          end
      | _, _ => VNone
      end
  end.

(** [mergeDicts(b, a)]; [depth] bounds the nesting of calls, as the
    interpreter's recursion limit does. *)
Fixpoint mergeDicts (depth : nat) (b a : Dict) : result Dict :=
  match depth with
  | O => Raise RecursionError
  | S depth =>
      let fix over_a (items : Dict) (cp : Dict) (skip : list string)
        : result (Dict * list string) :=
        match items with
        | [] => Ok (cp, skip)
        | (key, val) :: rest =>
            if String.eqb key mergeStrategyKey then over_a rest cp skip
            else
              match val with
              | VDict vd =>
                  let strategy := default VNone (dict_get vd mergeStrategyKey) in
                  let replace (strategy : Value) :=
                    if Value_is_str strategy "delete"
                    then over_a rest cp (skip ++ [key])
                    else over_a rest (dict_set cp key val) skip in
                  match dict_get b key with
                  | Some (VDict bd) =>
                      let strategy :=
                        if negb (Value_truthy strategy)
                        then default (VStr "merge") (dict_get bd mergeStrategyKey)
                        else strategy in
                      if Value_is_str strategy "merge" then
                        merged ← mergeDicts depth bd vd;
                        over_a rest (dict_set cp key (VDict merged)) skip
                      else if Value_is_str strategy "error" then
                        Raise (GitErOpError "merging is not allowed, +%: error was set")
                      else replace strategy
                  | _ => replace strategy
                  end
              | _ => over_a rest (dict_set cp key val) skip
              end
        end in
      '(cp, skip) ← over_a a [] [];
      Ok (foldl (fun cp e =>
                   if String.eqb (fst e) mergeStrategyKey then cp
                   else if negb (dict_mem cp (fst e))
                           && negb (bool_decide (fst e ∈ skip))
                   then dict_set cp (fst e) (snd e)
                   else cp)
                cp b)
  end.

Section Expand.

(** The nested call of [expandDict], and the nesting left for
    [mergeDicts]. *)
Variable expandDict_rec :
  Value -> list Seg -> Includes -> Dict -> result (Includes * Value).
Variable depth : nat.

(** [a == b] for a component of [path] and a str of [templatePath]. *)
Definition Seg_is_key (a : Seg) (b : string) : bool :=
  match a with
  | SegKey s => String.eqb s b
  | SegIdx _ => false
  end.

(** [len(list(takewhile(lambda x: x[0] == x[1], zip(path, templatePath))))],
    with [eqb] for the [==] of the two kinds of components. *)
Fixpoint common_prefix {A B : Type} (eqb : A -> B -> bool) (path : list A)
    (templatePath : list B) : nat :=
  match path, templatePath with
  | a :: p, b :: t => if eqb a b then S (common_prefix eqb p t) else O
  | _, _ => O
  end.

(** The loop of [getTemplate] over the segments of the key.
    [templatePath] is [None] or a slice of [path], a tuple: appending to it
    raises [AttributeError]. *)
Fixpoint getTemplate_loop (doc : Value) (path : list Seg) (segments : list string)
    (template : Value) (templatePath : option (list Seg))
  : result (Value * option (list Seg)) :=
  match segments with
  | [] => Ok (template, templatePath)
  | segment :: rest =>
      let '(template, templatePath) :=
        if String.eqb segment ".." then
          let tp := match templatePath with
                    | None => removelast path
                    | Some tp => removelast tp
                    end in
          (lookupPath doc tp, Some tp)
        else (template, templatePath) in
      match template with
      | VDict d =>
          match dict_get d segment with
          | Some v =>
              match templatePath with
              | Some _ => Raise AttributeError
              | None => getTemplate_loop doc path rest v templatePath
              end
          | None => Raise (GitErOpError "can not find key in document")
          end
      | _ => Raise (GitErOpError "can not find key in document")
      end
  end.

(** [getTemplate(doc, key, value, path, cls)]; the [includes] of the nested
    expansion are a new map that is dropped. *)
Definition getTemplate (doc : Value) (key : string) (value : Value) (path : list Seg)
  : result Value :=
  '(template, templatePath) ← getTemplate_loop doc path (split_slash key) doc None;
  match template with
  | VDict d =>
      if negb (Value_is_str value "raw") then
        let n :=
          match templatePath with
          | None => length (split_slash key)
          | Some tp => length tp
          end in
        let prefix :=
          match templatePath with
          | None => common_prefix Seg_is_key path (split_slash key)
          | Some tp => common_prefix (fun a b => bool_decide (a = b)) path tp
          end in
        if (prefix =? n)%nat then Raise (GitErOpError "recursive include")
        else
          '(_, expanded) ← expandDict_rec doc path [] d;
          Ok expanded
      else Ok template
  | _ => Ok template
  end.

(** [expandList(doc, path, includes, value, cls)], read to its end; [i] is
    the index of the first item of [value]. *)
Fixpoint expandList (doc : Value) (path : list Seg) (includes : Includes)
    (i : nat) (value : list Value) : result (Includes * list Value) :=
  match value with
  | [] => Ok (includes, [])
  | item :: rest =>
      '(includes, items) ←
        match item with
        | VStr s =>
            if String.prefix "+" s then
              let includes := includes_append includes (path ++ [SegIdx i]) (s, VNone) in
              template ← getTemplate doc (drop_chars 1 s) VNone path;
              match template with
              | VList l => Ok (includes, l)
              | _ => Ok (includes, [template])
              end
            else if String.prefix "q+" s then Ok (includes, [VStr (drop_chars 1 s)])
            else Ok (includes, [item])
        | VDict d =>
            '(includes, newitem) ← expandDict_rec doc (path ++ [SegIdx i]) includes d;
            match newitem with
            | VList l => Ok (includes, l)
            | _ => Ok (includes, [newitem])
            end
        | _ => Ok (includes, [item])
        end;
      '(includes, others) ← expandList doc path includes (S i) rest;
      Ok (includes, items ++ others)
  end.

(** The loop of [expandDict] over the items of [current]: it ends the
    function with a value ([inl]) or leaves [cp] and [templates] ([inr]). *)
Fixpoint expandDict_loop (doc : Value) (path : list Seg) (size : nat)
    (items : Dict) (includes : Includes) (cp : Dict) (templates : list Dict)
  : result (Includes * (Value + Dict * list Dict)) :=
  match items with
  | [] => Ok (includes, inr (cp, templates))
  | (key, value) :: rest =>
      if String.prefix "+" key then
        if String.eqb key mergeStrategyKey
        then expandDict_loop doc path size rest includes (dict_set cp key value) templates
        else
          let includes := includes_append includes path (key, value) in
          template ← getTemplate doc (drop_chars 1 key) value path;
          match template with
          | VDict t =>
              expandDict_loop doc path size rest includes cp (templates ++ [t])
          | _ =>
              if (1 <? size)%nat
              then Raise (GitErOpError "can not merge non-map value")
              else Ok (includes, inl template)
          end
      else if String.prefix "q+" key then
        expandDict_loop doc path size rest includes
                        (dict_set cp (drop_chars 2 key) value) templates
      else
        match value with
        | VDict d =>
            '(includes, v) ← expandDict_rec doc (path ++ [SegKey key]) includes d;
            expandDict_loop doc path size rest includes (dict_set cp key v) templates
        | VList l =>
            '(includes, l) ← expandList doc (path ++ [SegKey key]) includes 0 l;
            expandDict_loop doc path size rest includes (dict_set cp key (VList l)) templates
        | _ => expandDict_loop doc path size rest includes (dict_set cp key value) templates
        end
  end.

(** The body of [expandDict(doc, path, includes, current, cls)]. *)
Definition expandDict_body (doc : Value) (path : list Seg) (includes : Includes)
    (current : Dict) : result (Includes * Value) :=
  '(includes, r) ← expandDict_loop doc path (length current) current includes [] [];
  match r with
  | inl template => Ok (includes, template)
  | inr (cp, []) => Ok (includes, VDict cp)
  | inr (cp, accum :: templates) =>
      merged ← foldl (fun acc next => accum ← acc; mergeDicts depth accum next)
                     (Ok accum) (templates ++ [cp]);
      Ok (includes, VDict merged)
  end.

End Expand.

Fixpoint expandDict (depth : nat) (doc : Value) (path : list Seg) (includes : Includes)
    (current : Dict) : result (Includes * Value) :=
  match depth with
  | O => Raise RecursionError
  | S depth => expandDict_body (expandDict depth) depth doc path includes current
  end.

(** [expandDoc(doc)], with [current] left at its default. *)
Definition expandDoc (depth : nat) (doc : Value) : result (Includes * Value) :=
  match doc with
  | VDict d => expandDict depth doc [] [] d
  | _ => Raise (GitErOpError "malformed YAML or JSON document")
  end.

(** A document with one quoted key, and one with a quoted list item. *)
Definition quoted_key_doc : Value := VDict [("q+foo", VStr "bar")].
Definition quoted_item_doc : Value := VDict [("items", VList [VStr "q+foo"])].

End Includes.

(** ** The class registry, [toEnum] and templates in a document (util.py) *)
Module Util.

(** Exceptions of built-in operations that the functions below let
    through, beside those of [exn]. *)
Inductive Exception : Type :=
| Builtin (e : exn)
| KeyError (key : string)
| TypeError.

Inductive outcome (A : Type) : Type :=
| Returns (a : A)
| Throws (e : Exception).
Arguments Returns {A} a.
Arguments Throws {A} e.

#[global] Instance outcome_ret : MRet outcome := fun A a => Returns a.
#[global] Instance outcome_bind : MBind outcome := fun A B f m =>
  match m with
  | Returns a => f a
  | Throws e => Throws e
  end.

Definition VERSION : string := "giterops/v1alpha1".

(** [_ClassRegistry]: from an api version to the dict from a kind to its
    factory; a factory is a class, named by its identity. *)
Abbreviation Registry := (gmap string (gmap string nat)).

(** [registerClass(apiVersion, kind, factory, replace)]. *)
Definition registerClass (registry : Registry) (apiVersion kind : string)
    (factory : nat) (replace : bool) : result Registry :=
  let api := default ∅ (registry !! apiVersion) in
  if negb replace && bool_decide (is_Some (api !! kind))
     && negb (bool_decide (api !! kind = Some factory))
  then Raise (GitErOpError "class already registered")
  else Ok (<[apiVersion := <[kind := factory]> api]> registry).

(** The factory registered for a kind under an api version. *)
Definition registered (registry : Registry) (apiVersion kind : string) : option nat :=
  registry !! apiVersion ≫= fun api => api !! kind.

(** [lookupClass(kind, apiVersion, default)]. *)
Definition lookupClass (registry : Registry) (kind : string)
    (apiVersion : option string) (default_ : option nat) : result nat :=
  let version := if truthy_opt apiVersion then default VERSION apiVersion else VERSION in
  let klass :=
    match registry !! version with
    | Some api =>
        if bool_decide (api = ∅) then default_
        else match api !! kind with
             | Some k => Some k
             | None => default_
             end
    | None => default_
    end in
  match klass with
  | Some k => Ok k
  | None => Raise (GitErOpError "Can not find class")
  end.

(** The argument [value] of [toEnum]: a str, a member of the enum, [None],
    or something else. *)
Inductive EnumArg (A : Type) : Type :=
| ArgStr (s : string)
| ArgMember (a : A)
| ArgNone
| ArgOther.
Arguments ArgStr {A} s.
Arguments ArgMember {A} a.
Arguments ArgNone {A}.
Arguments ArgOther {A}.

(** [toEnum(enum, value, default)]; [lookup] is [enum[name]], which raises
    [KeyError] for a name of no member. *)
Definition toEnum {A : Type} (lookup : string -> option A) (value : EnumArg A)
    (default_ : option A) : outcome (EnumArg A) :=
  match value with
  | ArgStr s =>
      match lookup s with
      | Some a => Returns (ArgMember a)
      | None => Throws (KeyError s)
      end
  | ArgMember _ => Returns value
  | _ =>
      match default_ with
      | Some d => Returns (ArgMember d)
      | None => Returns value
      end
  end.

(** The names of the members of [Status] and of [Priority]. *)
Definition Status_name (s : Status.t) : string :=
  match s with
  | Status.ok => "ok"
  | Status.degraded => "degraded"
  | Status.error => "error"
  | Status.notapplied => "notapplied"
  | Status.notpresent => "notpresent"
  end.

Definition Status_lookup (name : string) : option Status.t :=
  list_find (fun s => String.eqb (Status_name s) name)
            [Status.ok; Status.degraded; Status.error; Status.notapplied;
             Status.notpresent]
  ≫= fun r => Some (snd r).

Definition Priority_name (p : Priority.t) : string :=
  match p with
  | Priority.ignore => "ignore"
  | Priority.optional => "optional"
  | Priority.required => "required"
  end.

Definition Priority_lookup (name : string) : option Priority.t :=
  list_find (fun p => String.eqb (Priority_name p) name)
            [Priority.ignore; Priority.optional; Priority.required]
  ≫= fun r => Some (snd r).

End Util.

(** *** Templates: [hasTemplate], [addTemplate] *)
Module Templates.
Import Includes.

(** The loop of [hasTemplate(doc, key, path, cls)] over the segments of the
    key. *)
Fixpoint hasTemplate_loop (doc : Value) (path : list Seg) (segments : list string)
    (template : Value) : result bool :=
  match segments with
  | [] => Ok true
  | segment :: rest =>
      let '(path, template) :=
        if String.eqb segment ".."
        then (removelast path, lookupPath doc (removelast path))
        else (path, template) in
      match template with
      | VDict d =>
          match dict_get d segment with
          | Some v => hasTemplate_loop doc path rest v
          | None => Ok false
          end
      | _ => Raise (GitErOpError "included templates changed")
      end
  end.

Definition hasTemplate (doc : Value) (key : string) (path : list Seg) : result bool :=
  hasTemplate_loop doc path (split_slash key) doc.

(** [addTemplate(changedDoc, path, template)]: the document after the call,
    and the exception if it ends in one.  [current.setdefault(segment, {})]
    on a map gives the value it has under the segment, or puts an empty map
    there (which stays when a later step fails); on anything else there is no
    such method ([AttributeError]); the last assignment needs a map
    ([TypeError] otherwise). *)
Fixpoint addTemplate_at (current : Value) (segments : list string) (last : string)
    (template : Value) : Value * option Util.Exception :=
  match segments with
  | [] =>
      match current with
      | VDict d => (VDict (dict_set d last template), None)
      | _ => (current, Some Util.TypeError)
      end
  | segment :: rest =>
      match current with
      | VDict d =>
          let child := default (VDict []) (dict_get d segment) in
          let '(child, e) := addTemplate_at child rest last template in
          (VDict (dict_set d segment child), e)
      | _ => (current, Some (Util.Builtin AttributeError))
      end
  end.

Definition addTemplate (changedDoc : Value) (path : string) (template : Value)
  : Value * option Util.Exception :=
  let key := split_slash path in
  addTemplate_at changedDoc (removelast key) (List.last key "") template.

(** How deep the maps of a value nest: what the calls of [expandDict] on it
    need of the recursion limit. *)
Fixpoint dict_depth (v : Value) : nat :=
  match v with
  | VDict d => S (foldr (fun e acc => Nat.max (dict_depth (snd e)) acc) O d)
  | VList l => foldr (fun x acc => Nat.max (dict_depth x) acc) O l
  | _ => O
  end.

(** A key or list item that is neither an include directive nor quoted. *)
Definition plain_str (s : string) : bool :=
  negb (String.prefix "+" s) && negb (String.prefix "q+" s).

Definition plain_item (v : Value) : bool :=
  match v with
  | VStr s => plain_str s
  | _ => true
  end.

(** A value without include directives: no key of a map and no str item of
    a list starts with [+] or [q+]. *)
Fixpoint plain (v : Value) : bool :=
  match v with
  | VDict d => forallb (fun e => plain_str (fst e) && plain (snd e)) d
  | VList l => forallb (fun x => plain_item x && plain x) l
  | _ => true
  end.

(** The maps of a value have no key twice, as those of a parsed document. *)
Fixpoint unique_keys (v : Value) : bool :=
  match v with
  | VDict d =>
      bool_decide (NoDup (map fst d)) && forallb (fun e => unique_keys (snd e)) d
  | VList l => forallb unique_keys l
  | _ => true
  end.

End Templates.

(** ** Making a task ([Task.__init__], [Task.findResource],
       [ConfigurationSpec.create]) *)

(** [Task.findResource(name)]: the lookup from the manifest's root
    resource. *)
Definition Task_findResource (w : World) (manifest : Manifest.t) (name : string)
  : result (option nat) :=
  findResource w (Manifest.getRootResource manifest) name.

(** [ConfigurationSpec.create()]: the class registered for [className]
    under the default api version; the configurator is that class applied to
    the spec. *)
Definition ConfigurationSpec_create (registry : Util.Registry)
    (self : ConfigurationSpec.t) : result nat :=
  Util.lookupClass registry (ConfigurationSpec.className self) None None.

(** [Task.__init__(job, spec, currentConfiguration)]: the new configuration
    is made on the resource of the current one, with its status, or on the
    resource found for the spec's target, with [notapplied] ([Configuration]
    asserts that there is a resource and that it is the target); then the
    configurator is made.  The result is the store, the task and the class of
    its configurator. *)
Definition Task_init (w : World) (manifest : Manifest.t) (registry : Util.Registry)
    (spec : ConfigurationSpec.t) (currentConfiguration : option nat)
  : result (World * Task.t * nat) :=
  '(w, current, new) ←
    match currentConfiguration with
    | Some old =>
        let c := configuration_at w old in
        '(w, new) ← Configuration_init w spec (Configuration.resource c)
                      (Configuration.status c);
        Ok (w, old, new)
    | None =>
        found ← Task_findResource w manifest (ConfigurationSpec.target spec);
        match found with
        | Some resource =>
            '(w, new) ← Configuration_init w spec resource Status.notapplied;
            Ok (w, new, new)
        | None => Raise AssertionError
        end
    end;
  class ← ConfigurationSpec_create registry spec;
  Ok (w, Task.mk currentConfiguration current new [] [], class).

(** [Task.createSubTask(configSpec)]: [Task(self.job, configSpec, None)]. *)
Definition createSubTask (w : World) (manifest : Manifest.t) (registry : Util.Registry)
    (configSpec : ConfigurationSpec.t) : result (World * Task.t * nat) :=
  Task_init w manifest registry configSpec None.

(** A sequence of [updateResource] calls of one task: each entry gives the
    resource, [updated] and [deleted]. *)
Definition updateResource_all (w : World) (t : Task.t)
    (calls : list (nat * gmap string string * list string)) : World * Task.t :=
  foldl (fun s call =>
           Task.updateResource (fst s) (snd s) (fst (fst call)) (snd (fst call))
                               (snd call))
        (w, t) calls.

(** [configurator.canRun(task)] of a configurator ([None]: it raised). *)
Definition Configurator_canRun (configurator : Configurator) : option bool :=
  match configurator with
  | mkConfigurator canRun _ _ => canRun
  end.

(** The second inner loop of [Job.getCandidateTasks], for one resource:
    [orphans] is what is left of [existing.values()], the configurations of
    the resource that no wanted spec has popped.  [isConfigAlreadyHandled]
    reads [configSpec.target], so it raises on [None]; the task is yielded
    when [filterConfig] returns nothing ([not self.filterConfig(config)]). *)
Fixpoint next_orphan (job : Job.t) (workDone : Runner.workDone) (w : World)
    (orphans : list nat) : result (option (Candidate * list nat)) :=
  match orphans with
  | [] => Ok None
  | change :: rest =>
      included ← Job.includeTask job None (Some (configuration_at w change));
      match included with
      | None => Raise AttributeError
      | Some config =>
          if Runner.isConfigAlreadyHandled workDone config
          then next_orphan job workDone w rest
          else
            kept ← Job.filterConfig job config;
            match kept with
            | Some _ => next_orphan job workDone w rest
            | None => Ok (Some (mkCandidate config (Some change), rest))
            end
      end
  end.

(** ** Differences of maps ([diffDicts], and the loops of [mergeDicts]) *)
Module Dicts.
Import Includes.

(** Python's [==] on values: two maps are equal when they have the same
    number of keys and every key of the first has an equal value in the
    second, whatever the order. *)
Fixpoint Value_eqb (a b : Value) {struct a} : bool :=
  match a, b with
  | VNone, VNone => true
  | VStr x, VStr y => String.eqb x y
  | VInt x, VInt y => x =? y
  | VList l, VList m =>
      (fix items (l m : list Value) {struct l} : bool :=
         match l, m with
         | [], [] => true
         | x :: l, y :: m => Value_eqb x y && items l m
         | _, _ => false
         end) l m
  | VDict d, VDict e =>
      Nat.eqb (length d) (length e)
      && (fix entries (d : Dict) {struct d} : bool :=
            match d with
            | [] => true
            | (k, v) :: d =>
                match dict_get e k with
                | Some v' => Value_eqb v v'
                | None => false
                end && entries d
            end) d
  | _, _ => false
  end.

Section MergeLoops.

(** The nested call of [mergeDicts], and its argument [b]. *)
Variable rec : Dict -> Dict -> result Dict.
Variable b : Dict.

(** The first loop of [mergeDicts], over [a.items()], as in [mergeDicts]
    above. *)
Fixpoint mergeDicts_over (items : Dict) (cp : Dict) (skip : list string)
  : result (Dict * list string) :=
  match items with
  | [] => Ok (cp, skip)
  | (key, val) :: rest =>
      if String.eqb key mergeStrategyKey then mergeDicts_over rest cp skip
      else
        match val with
        | VDict vd =>
            let strategy := default VNone (dict_get vd mergeStrategyKey) in
            let replace (strategy : Value) :=
              if Value_is_str strategy "delete"
              then mergeDicts_over rest cp (skip ++ [key])
              else mergeDicts_over rest (dict_set cp key val) skip in
            match dict_get b key with
            | Some (VDict bd) =>
                let strategy :=
                  if negb (Value_truthy strategy)
                  then default (VStr "merge") (dict_get bd mergeStrategyKey)
                  else strategy in
                if Value_is_str strategy "merge" then
                  merged ← rec bd vd;
                  mergeDicts_over rest (dict_set cp key (VDict merged)) skip
                else if Value_is_str strategy "error" then
                  Raise (GitErOpError "merging is not allowed, +%: error was set")
                else replace strategy
            | _ => replace strategy
            end
        | _ => mergeDicts_over rest (dict_set cp key val) skip
        end
  end.

(** The second loop of [mergeDicts], over [b.items()]. *)
Definition mergeDicts_rest (cp : Dict) (skip : list string) : Dict :=
  foldl (fun cp e =>
           if String.eqb (fst e) mergeStrategyKey then cp
           else if negb (dict_mem cp (fst e))
                   && negb (bool_decide (fst e ∈ skip))
           then dict_set cp (fst e) (snd e)
           else cp)
        cp b.

(** What the first loop does with one item whose key is not [+%]: the value
    it stores under the key, or nothing when the key is to be skipped. *)
Definition merge_item (key : string) (val : Value) : result (option Value) :=
  match val with
  | VDict vd =>
      let strategy := default VNone (dict_get vd mergeStrategyKey) in
      let replace (strategy : Value) :=
        if Value_is_str strategy "delete" then Ok None else Ok (Some val) in
      match dict_get b key with
      | Some (VDict bd) =>
          let strategy :=
            if negb (Value_truthy strategy)
            then default (VStr "merge") (dict_get bd mergeStrategyKey)
            else strategy in
          if Value_is_str strategy "merge" then
            merged ← rec bd vd; Ok (Some (VDict merged))
          else if Value_is_str strategy "error" then
            Raise (GitErOpError "merging is not allowed, +%: error was set")
          else replace strategy
      | _ => replace strategy
      end
  | _ => Ok (Some val)
  end.

End MergeLoops.

Section DiffLoops.

(** The nested call of [diffDicts], and its argument [new]. *)
Variable rec : Dict -> Dict -> result Dict.
Variable new : Dict.

(** The first loop of [diffDicts], over [old.items()]. *)
Fixpoint diffDicts_old (items : Dict) (diff : Dict) : result Dict :=
  match items with
  | [] => Ok diff
  | (key, val) :: rest =>
      match dict_get new key with
      | Some newval =>
          if negb (Value_eqb val newval) then
            match val, newval with
            | VDict od, VDict nd =>
                d ← rec od nd;
                diffDicts_old rest (dict_set diff key (VDict d))
            | _, _ => diffDicts_old rest (dict_set diff key newval)
            end
          else diffDicts_old rest diff
      | None =>
          diffDicts_old rest
            (dict_set diff key (VDict [(mergeStrategyKey, VStr "delete")]))
      end
  end.

(** What the first loop does with one item: the value it stores under the
    key, or nothing when the two values are equal. *)
Definition diff_item (key : string) (val : Value) : result (option Value) :=
  match dict_get new key with
  | Some newval =>
      if negb (Value_eqb val newval) then
        match val, newval with
        | VDict od, VDict nd => d ← rec od nd; Ok (Some (VDict d))
        | _, _ => Ok (Some newval)
        end
      else Ok None
  | None => Ok (Some (VDict [(mergeStrategyKey, VStr "delete")]))
  end.

End DiffLoops.

(** The second loop of [diffDicts], over the keys of [new]. *)
Definition diffDicts_new (old : Dict) (diff : Dict) (new : Dict) : Dict :=
  foldl (fun diff e =>
           if dict_mem old (fst e) then diff else dict_set diff (fst e) (snd e))
        diff new.

(** [diffDicts(old, new)]; [depth] bounds the nesting of calls, as in
    [mergeDicts]. *)
Fixpoint diffDicts (depth : nat) (old new : Dict) : result Dict :=
  match depth with
  | O => Raise RecursionError
  | S depth =>
      diff ← diffDicts_old (diffDicts depth) new old [];
      Ok (diffDicts_new old diff new)
  end.

(** No map of the value, at any depth of maps, has the key [+%]. *)
Fixpoint no_strategy_key (v : Value) : bool :=
  match v with
  | VDict d =>
      forallb (fun e => negb (String.eqb (fst e) mergeStrategyKey)
                        && no_strategy_key (snd e)) d
  | _ => true
  end.

(** Two versions of a document's map. *)
Definition old_doc : Dict :=
  [("name", VStr "web");
   ("ports", VDict [("http", VInt 80); ("admin", VInt 9000)]);
   ("debug", VStr "yes")].
Definition new_doc : Dict :=
  [("ports", VDict [("http", VInt 8080); ("https", VInt 443)]);
   ("name", VStr "web");
   ("tags", VList [VStr "a"])].

End Dicts.

(** * Theorems *)

(** ** The status algebra *)
Section OperationalFacts.
Import Operational.

Lemma status_unfold (o : t) :
  status o =
  let status0 := match manualOverideStatus o with
                 | Some m => m
                 | None => computedStatus o
                 end in
  if Status.geb status0 Status.error then status0
  else aggregateStatus (getOperationalDependencies o) status0.
Proof. destruct o; reflexivity. Qed.

Lemma priority_is_ignore_not_required (d : t) :
  priority_is d Priority.ignore = true -> required d = false.
Proof.
  unfold required, priority_is.
  destruct (priority d) as [[]|]; cbv; congruence.
Qed.

(** Once a dependency has downgraded the state, the rest of the scan either
    hits a blocking dependency or stays [degraded]. *)
Lemma aggregate_loop_degraded (statuses : list t) :
  aggregate_loop status statuses Status.degraded =
  if existsb blocks statuses then Status.error else Status.degraded.
Proof.
  induction statuses as [|d rest IH]; [reflexivity|].
  simpl. unfold blocks at 1. fold (operational d).
  destruct (priority_is d Priority.ignore) eqn:Hi; simpl; [exact IH|].
  destruct (required d); simpl.
  - destruct (operational d); simpl; [|reflexivity].
    destruct (Status.eqb (status d) Status.degraded); exact IH.
  - destruct (operational d); simpl; exact IH.
Qed.

(** C1. For every list of dependencies and every default status,
    [aggregateStatus] returns [error] if the scan, skipping ignored
    dependencies, reaches a required dependency that is not operational;
    otherwise [degraded] if some dependency that is not ignored is required
    and degraded or not required and not operational; otherwise the default
    status. *)
Theorem aggregateStatus_rule (statuses : list t) (defaultStatus : Status.t) :
  aggregateStatus statuses defaultStatus = aggregateStatus_spec statuses defaultStatus.
Proof.
  unfold aggregateStatus, aggregateStatus_spec.
  induction statuses as [|d rest IH]; [reflexivity|].
  simpl. unfold blocks at 1, downgrades at 1. fold (operational d).
  destruct (priority_is d Priority.ignore) eqn:Hi; simpl; [exact IH|].
  destruct (required d); simpl.
  - destruct (operational d); simpl; [|reflexivity].
    destruct (Status.eqb (status d) Status.degraded); simpl.
    + rewrite aggregate_loop_degraded. destruct (existsb blocks rest); reflexivity.
    + exact IH.
  - destruct (operational d); simpl.
    + exact IH.
    + rewrite aggregate_loop_degraded. destruct (existsb blocks rest); reflexivity.
Qed.

(** The specification's three cases of the status algebra, on the code. *)
Example required_error_gives_error (defaultStatus : Status.t) :
  aggregateStatus [failed_dependency] defaultStatus = Status.error.
Proof. reflexivity. Qed.

Example optional_not_operational_gives_degraded :
  aggregateStatus [mk (Some Priority.optional) Status.notpresent None [];
                   mk None Status.error None []] Status.ok = Status.degraded.
Proof. reflexivity. Qed.

Example all_operational_gives_default (defaultStatus : Status.t) :
  aggregateStatus [mk (Some Priority.required) Status.ok None [];
                   mk (Some Priority.optional) Status.degraded None []] defaultStatus
  = defaultStatus.
Proof. reflexivity. Qed.

(** C3, as stated, fails: with the manual override [notapplied] (not the
    [error] status) the [status] property returns the override without looking
    at the dependencies, although aggregating over them would give [error]. *)
Lemma override_notapplied_skips_dependencies :
  manualOverideStatus overridden_notapplied = Some Status.notapplied
  /\ status overridden_notapplied = Status.notapplied
  /\ aggregateStatus (getOperationalDependencies overridden_notapplied)
       Status.notapplied = Status.error.
Proof. repeat split. Qed.

(** C3, amended. The [status] property starts from the manual override when
    one is set and from the computed status otherwise; when that status is
    [ok] or [degraded] it aggregates over the dependencies with it as the
    default, and when it is [error], [notapplied] or [notpresent] (every
    status [>= error]) it is returned as it is and the dependencies are not
    consulted. *)
Theorem status_override_rule
    (p : option Priority.t) (computed : Status.t) (manual : option Status.t)
    (deps : list t) :
  status (mk p computed manual deps) =
  match default computed manual with
  | Status.ok => aggregateStatus deps Status.ok
  | Status.degraded => aggregateStatus deps Status.degraded
  | Status.error => Status.error
  | Status.notapplied => Status.notapplied
  | Status.notpresent => Status.notpresent
  end.
Proof.
  rewrite status_unfold. simpl.
  destruct manual as [m|]; simpl; [destruct m | destruct computed]; reflexivity.
Qed.

End OperationalFacts.

(** ** The planner's decisions *)
Section PlannerFacts.
Import Job.

Lemma ConfigurationSpec_eqb_eq (a b : ConfigurationSpec.t) :
  ConfigurationSpec.eqb a b = true ->
  ConfigurationSpec.name a = ConfigurationSpec.name b
  /\ ConfigurationSpec.minorVersion a = ConfigurationSpec.minorVersion b.
Proof.
  unfold ConfigurationSpec.eqb. intros H.
  repeat (apply andb_prop in H; destruct H as [H ?]).
  split; apply String.eqb_eq; assumption.
Qed.

(** What [checkForRepair] returns is the last applied spec or nothing. *)
Lemma checkForRepair_returns_last (job : t) (lc : Configuration.t)
    (r : option ConfigurationSpec.t) :
  checkForRepair job lc = Ok r ->
  r = None \/ r = Some (Configuration.configurationSpec lc).
Proof.
  unfold checkForRepair.
  repeat match goal with
         | |- context [if ?b then _ else _] => destruct b
         end; intros H; inversion H; auto.
Qed.

(** With a changed spec, no upgrade and no re-added configuration, the
    update branch of [includeTask] selects the new spec exactly when the
    major version differs; with the same major version the decision is left
    to [checkForRepair] on the last applied configuration. *)
Lemma includeTask_update_branch (job : t) (c : ConfigurationSpec.t)
    (lc : Configuration.t) :
  all job = false ->
  upgrade job = false ->
  update job = true ->
  ConfigurationSpec.eqb (Configuration.configurationSpec lc) c = false ->
  intent_is (ConfigurationSpec.intent c) Action.revert = false ->
  Status.eqb (Configuration.status lc) Status.notpresent = false ->
  includeTask job (Some c) (Some lc) =
  if ConfigurationSpec.majorVersion (Configuration.configurationSpec lc)
     =? ConfigurationSpec.majorVersion c
  then checkForRepair job lc
  else Ok (Some c).
Proof.
  intros Hall Hup Hupd Hne Hrev Hst.
  unfold includeTask. simpl.
  rewrite Hall, Hup, Hupd, Hne, Hrev, Hst. simpl.
  destruct (_ =? _); reflexivity.
Qed.

(** Under the conditions of the claim (changed spec, same major version, no
    revert, [update] and not [upgrade]) a job that is not run with [all], on a
    configuration whose status is not [notpresent], never selects the new
    spec: the result is the old spec, nothing, or an assertion failure. *)
Lemma includeTask_same_major_never_new (job : t) (c : ConfigurationSpec.t)
    (lc : Configuration.t) :
  all job = false ->
  upgrade job = false ->
  update job = true ->
  ConfigurationSpec.eqb (Configuration.configurationSpec lc) c = false ->
  intent_is (ConfigurationSpec.intent c) Action.revert = false ->
  Status.eqb (Configuration.status lc) Status.notpresent = false ->
  ConfigurationSpec.majorVersion (Configuration.configurationSpec lc)
    = ConfigurationSpec.majorVersion c ->
  includeTask job (Some c) (Some lc) <> Ok (Some c).
Proof.
  intros Hall Hup Hupd Hne Hrev Hst Hmaj.
  rewrite includeTask_update_branch by assumption.
  rewrite Hmaj, Z.eqb_refl. intros H.
  apply checkForRepair_returns_last in H as [H|H]; [discriminate|].
  inversion H as [Heq]. rewrite Heq in Hne.
  assert (ConfigurationSpec.eqb c c = true) as Hrefl.
  { unfold ConfigurationSpec.eqb.
    rewrite !String.eqb_refl, Z.eqb_refl. simpl.
    destruct (ConfigurationSpec.intent c) as [[]|s]; simpl;
      [reflexivity..|apply String.eqb_refl]. }
  congruence.
Qed.

(** C2, on the code.  The edited spec differs from the applied one in its
    minor version only, its intent is not [revert], and the job has the
    default options ([update], no [upgrade]): [includeTask] returns nothing
    instead of the edited spec, because the update branch tests
    [spec.majorVersion != config.majorVersion]. *)
Theorem includeTask_minor_edit_not_selected :
  ConfigurationSpec.eqb (Configuration.configurationSpec last_applied) edited_spec = false
  /\ ConfigurationSpec.majorVersion (Configuration.configurationSpec last_applied)
     = ConfigurationSpec.majorVersion edited_spec
  /\ intent_is (ConfigurationSpec.intent edited_spec) Action.revert = false
  /\ upgrade defaults = false
  /\ update defaults = true
  /\ includeTask defaults (Some edited_spec) (Some last_applied) = Ok None.
Proof. repeat split. Qed.

(** The same edit with a new major version is selected by the update
    branch, which the comment in the source says it must not be. *)
Example includeTask_major_edit_selected :
  let major_edit :=
    ConfigurationSpec.mk "web" "server" "ShellConfigurator" 2 "0"
                         (IntentEnum Action.instantiate) in
  includeTask defaults (Some major_edit) (Some last_applied) = Ok (Some major_edit).
Proof. reflexivity. Qed.

(** X1. A read-only job drops every spec whose intent is a member of [Action],
    [Action.discover] included: the member is compared with a str. *)
Lemma filterConfig_readOnly_enum (job : t) (config : ConfigurationSpec.t)
    (a : Action.t) :
  readOnly job = true ->
  ConfigurationSpec.intent config = IntentEnum a ->
  filterConfig job config = Ok None.
Proof.
  intros Hro Hi. unfold filterConfig. rewrite Hro, Hi. reflexivity.
Qed.

Lemma filterConfig_readOnly_enum_witness :
  filterConfig readOnly_job applied_spec = Ok None.
Proof.
  apply (filterConfig_readOnly_enum readOnly_job applied_spec Action.instantiate);
    reflexivity.
Defined.

(** What survives the filter of a read-only job has the str ['discover'] as
    its intent. *)
Lemma filterConfig_readOnly_survivor (job : t) (config kept : ConfigurationSpec.t) :
  readOnly job = true ->
  filterConfig job config = Ok (Some kept) ->
  kept = config /\ ConfigurationSpec.intent config = IntentStr "discover".
Proof.
  intros Hro. unfold filterConfig. rewrite Hro. simpl.
  destruct (ConfigurationSpec.intent config) as [a|s] eqn:Hi; simpl; [discriminate|].
  destruct (String.eqb s "discover") eqn:Hs; simpl; [|discriminate].
  apply String.eqb_eq in Hs. subst s.
  repeat match goal with
         | |- context [if ?b then _ else _] => destruct b
         end; intros H; inversion H; auto.
Qed.

(** C7, on the code.  With [readOnly] set and no other filter, a spec whose
    intent is [Action.discover] is dropped by [filterConfig]. *)
Theorem filterConfig_readOnly_drops_discover :
  readOnly readOnly_job = true
  /\ ConfigurationSpec.intent discover_spec = IntentEnum Action.discover
  /\ filterConfig readOnly_job discover_spec = Ok None.
Proof. repeat split. Qed.

End PlannerFacts.

(** ** Resources: construction and lookup *)
Section ResourceFacts.

Lemma findResource_loop_spec (w : World) (children : list nat) (resourceid : string) :
  findResource_loop w children resourceid =
  if existsb (fun r => String.eqb (Resource.name (resource_at w r)) resourceid) children
  then Raise NameError
  else Ok None.
Proof.
  induction children as [|r rest IH]; simpl; [reflexivity|].
  destruct (String.eqb _ _); simpl; [reflexivity|exact IH].
Qed.

(** C10. [findResource] looks at the resource and at its direct children
    only: it returns the resource when its own name is the requested one,
    raises [NameError] when (its own name being different) a direct child has
    that name, and returns [None] when neither the resource nor a direct child
    has it, whatever lies two or more levels down. *)
Theorem findResource_shallow (w : World) (self : nat) (children : list nat)
    (resourceid : string) :
  Resource.resources (resource_at w self) = Some children ->
  (named_at_depth w 0 self resourceid = true ->
   findResource w self resourceid = Ok (Some self))
  /\ (named_at_depth w 0 self resourceid = false ->
      named_at_depth w 1 self resourceid = true ->
      findResource w self resourceid = Raise NameError)
  /\ (named_at_depth w 0 self resourceid = false ->
      named_at_depth w 1 self resourceid = false ->
      findResource w self resourceid = Ok None).
Proof.
  intros Hch. unfold findResource, Resource.get_resources. simpl.
  rewrite Hch. simpl.
  repeat split.
  - intros ->. reflexivity.
  - intros -> H1. rewrite findResource_loop_spec, H1. reflexivity.
  - intros -> H1. rewrite findResource_loop_spec, H1. reflexivity.
Qed.

(** In the three-level tree, ["db"] exists at depth two only and is not
    found from the root; ["web"], a direct child, raises [NameError]. *)
Lemma findResource_shallow_witness :
  named_at_depth tree_world 2 0 "db" = true
  /\ findResource tree_world 0 "db" = Ok None
  /\ findResource tree_world 0 "web" = Raise NameError
  /\ findResource tree_world 0 "root" = Ok (Some 0%nat).
Proof.
  split; [reflexivity|].
  split; [apply (findResource_shallow tree_world 0 [1%nat] "db" eq_refl); reflexivity|].
  split; [apply (findResource_shallow tree_world 0 [1%nat] "web" eq_refl); reflexivity|].
  apply (findResource_shallow tree_world 0 [1%nat] "root" eq_refl); reflexivity.
Defined.

Lemma Resource_init_parent (w : World) (name : string)
    (attributes : option (gmap string string)) (configurations : option (list nat))
    (parent : nat) (children : option (list nat)) :
  Resource_init w name attributes configurations (Some parent) children
  = Raise AttributeError.
Proof. reflexivity. Qed.

(** Whenever the constructor returns, it has touched the new object only. *)
Lemma Resource_init_frame (w w' : World) (name : string)
    (attributes : option (gmap string string)) (configurations : option (list nat))
    (parent : option nat) (children : option (list nat)) (self other : nat) :
  Resource_init w name attributes configurations parent children = Ok (w', self) ->
  other <> self ->
  resource_at w' other = resource_at w other.
Proof.
  destruct parent as [p|]; [rewrite Resource_init_parent; discriminate|].
  unfold Resource_init. simpl. intros H Hne. inversion H; subst. simpl.
  apply fn_lookup_insert_ne. congruence.
Qed.

(** C9. For every parent, [Resource(name, attributes, parent=parent)] raises
    [AttributeError], because [self.resources] is read before it is assigned;
    [Manifest.createResource], which always passes a parent, always ends in an
    exception; and a constructor call that does return has modified no other
    object, so no resource is ever added to its parent's children. *)
Theorem Resource_with_parent_raises :
  (forall w name attributes configurations parent children,
      Resource_init w name attributes configurations (Some parent) children
      = Raise AttributeError)
  /\ (forall w manifest templateName name attributes parent configurationSpecs,
         exists e,
           Manifest.createResource w manifest templateName name attributes parent
                                   configurationSpecs = Raise e)
  /\ (forall w w' name attributes configurations parent children self other,
         Resource_init w name attributes configurations parent children = Ok (w', self) ->
         other <> self ->
         Resource.resources (resource_at w' other) = Resource.resources (resource_at w other)).
Proof.
  split; [exact Resource_init_parent|]. split.
  - intros w m templateName name attributes parent specs.
    unfold Manifest.createResource.
    destruct (negb (truthy_opt name)); [eauto|].
    destruct (findResource w (Manifest.rootResource m) (default "" name)) as [found|e];
      [|simpl; eauto].
    change (exists e,
      (if bool_decide (is_Some found) then Raise AssertionError
       else '(w, resource) ← Resource_init w (default "" name) attributes None
                               (Some (default (Manifest.getRootResource m) parent)) None;
            w ← foldl (fun acc spec =>
                   w ← acc;
                   '(w, c) ← Configuration_init w spec resource Status.notapplied;
                   Ok (setConfiguration w resource c))
                (Ok w) (default [] specs);
            Ok (w, resource)) = Raise e).
    destruct (bool_decide (is_Some found)); [eauto|].
    rewrite Resource_init_parent. simpl. eauto.
  - intros w w' name attributes configurations parent children self other H Hne.
    f_equal. eapply Resource_init_frame; eassumption.
Qed.

(** A resource built without a parent, and the calls with one. *)
Lemma Resource_with_parent_raises_witness :
  Resource_init tree_world "cache" None None (Some 0%nat) None = Raise AttributeError
  /\ (exists e, Manifest.createResource tree_world (Manifest.mk 0%nat []) None
                  (Some "cache") None None None = Raise e)
  /\ Resource.resources (resource_at
       (mkWorld (<[3%nat := Resource.mk "cache" ∅ ∅ ∅ None (Some [])]> tree_resources)
                (fun _ => blank_configuration) 4%nat 0%nat) 0%nat)
     = Resource.resources (resource_at tree_world 0%nat).
Proof.
  destruct Resource_with_parent_raises as (H1 & H2 & H3).
  split; [apply H1|]. split; [apply H2|].
  apply (H3 tree_world _ "cache" None None None None 3%nat 0%nat); [reflexivity|lia].
Defined.

End ResourceFacts.

(** ** Tasks: reverting and running *)
Section TaskFacts.
Import Task.

Lemma update_set_ok_NoDup (w : World) (t : Task.t) :
  update_set_ok w t -> NoDup (saved_resources t).
Proof.
  unfold update_set_ok, saved_resources. intros [Hk Hn].
  induction (updateResources t) as [|e l IH]; simpl; [constructor|].
  inversion Hk as [|? ? Hnotin Hk']; subst. inversion Hn as [|? ? He Hn']; subst.
  constructor; [|auto].
  intros Hin. apply Hnotin.
  apply list_elem_of_fmap in Hin as (e' & Heq & Hin').
  apply list_elem_of_fmap. exists e'. split; [|exact Hin'].
  rewrite list.Forall_forall in Hn'. specialize (Hn' e' Hin').
  rewrite <- He, <- Hn', Heq. reflexivity.
Qed.

Lemma revert_fold_other (l : list (string * (nat * gmap string string))) (w : World)
    (r : nat) :
  r ∉ map (fun e => fst (snd e)) l ->
  resource_at (foldl revert_step w l) r = resource_at w r.
Proof.
  revert w. induction l as [|e l IH]; intros w Hnotin; simpl; [reflexivity|].
  simpl in Hnotin. apply not_elem_of_cons in Hnotin as [Hne Hnotin].
  rewrite IH by assumption. unfold revert_step, update_resource. simpl.
  apply fn_lookup_alter_ne. congruence.
Qed.

Lemma revert_fold_saved (l : list (string * (nat * gmap string string))) (w : World)
    (e : string * (nat * gmap string string)) :
  NoDup (map (fun e => fst (snd e)) l) ->
  e ∈ l ->
  Resource.attributes (resource_at (foldl revert_step w l) (fst (snd e))) = snd (snd e).
Proof.
  revert w. induction l as [|e' l IH]; intros w Hnd Hin; [inversion Hin|].
  simpl in *. inversion Hnd as [|? ? Hnotin Hnd']; subst.
  apply elem_of_cons in Hin as [->|Hin]; [|auto].
  rewrite revert_fold_other by assumption.
  unfold revert_step, update_resource. simpl.
  rewrite fn_lookup_alter. reflexivity.
Qed.

Lemma setConfiguration_attributes (w : World) (self c r : nat) :
  Resource.attributes (resource_at (setConfiguration w self c) r)
  = Resource.attributes (resource_at w r).
Proof.
  unfold setConfiguration, update_resource.
  destruct (_ && _); simpl;
    (destruct (decide (self = r)) as [->|Hne];
     [rewrite fn_lookup_alter|rewrite fn_lookup_alter_ne by assumption]; reflexivity).
Qed.

Lemma revert_fold_dicts (l : list (string * (nat * gmap string string))) (w : World)
    (r : nat) :
  Resource.configurations (resource_at (foldl revert_step w l) r)
  = Resource.configurations (resource_at w r)
  /\ Resource.excludedConfigurations (resource_at (foldl revert_step w l) r)
     = Resource.excludedConfigurations (resource_at w r).
Proof.
  revert w. induction l as [|e l IH]; intros w; simpl; [split; reflexivity|].
  destruct (IH (revert_step w e)) as [-> ->].
  unfold revert_step, update_resource. simpl.
  destruct (decide (fst (snd e) = r)) as [->|Hne];
    [rewrite fn_lookup_alter|rewrite fn_lookup_alter_ne by assumption];
    split; reflexivity.
Qed.

Lemma set_computedStatus_elsewhere (w : World) (s : Status.t) (c c' : nat) :
  c <> c' ->
  configuration_at (update_configuration (set_computedStatus s) c w) c'
  = configuration_at w c'.
Proof.
  intros Hne. unfold update_configuration. simpl.
  apply fn_lookup_alter_ne. exact Hne.
Qed.

Lemma set_computedStatus_keeps (w : World) (s : Status.t) (c c' : nat) :
  Configuration.name (configuration_at (update_configuration (set_computedStatus s) c w) c')
  = Configuration.name (configuration_at w c')
  /\ Configuration.resource
       (configuration_at (update_configuration (set_computedStatus s) c w) c')
     = Configuration.resource (configuration_at w c').
Proof.
  unfold update_configuration. simpl.
  destruct (decide (c = c')) as [->|Hne];
    [rewrite fn_lookup_alter|rewrite fn_lookup_alter_ne by assumption];
    split; reflexivity.
Qed.

Lemma setConfiguration_configuration_at (w : World) (self c : nat) :
  configuration_at (setConfiguration w self c) = configuration_at w.
Proof. unfold setConfiguration. destruct (_ && _); reflexivity. Qed.

(** C4, amended.  When a task finishes with [notapplied], every resource
    saved in its update set gets back the copy of its attributes that was
    saved at the task's first update of it, the update set is emptied, and the
    previous configuration (when there is one) is the task's current
    configuration again, with the new one filed under the resource's excluded
    configurations and the previous one back among its configurations (unless
    it is a [notpresent] revert); the attributes of every resource that is
    not in the update set are left as they are, so what sub-tasks wrote
    remains in place on those resources only. *)
Theorem finished_notapplied_reverts (w w' : World) (t t' : Task.t) (c : nat) :
  update_set_ok w t ->
  finished w t Status.notapplied = Ok (w', t', c) ->
  (forall name resource saved,
      (name, (resource, saved)) ∈ updateResources t ->
      Resource.attributes (resource_at w' resource) = saved)
  /\ (forall resource,
         resource ∉ saved_resources t ->
         Resource.attributes (resource_at w' resource)
         = Resource.attributes (resource_at w resource))
  /\ updateResources t' = []
  /\ (forall old,
         oldConfiguration t = Some old ->
         let resource :=
           Configuration.resource (configuration_at w (currentConfiguration t)) in
         currentConfiguration t' = old
         /\ Resource.excludedConfigurations (resource_at w' resource)
              !! Configuration.name (configuration_at w (newConfiguration t))
            = Some (newConfiguration t)
         /\ (currentConfiguration t <> old ->
             Status.eqb (Configuration.status (configuration_at w old)) Status.notpresent
             && Intent_eqb (Configuration.intent (configuration_at w old))
                           (IntentEnum Action.revert) = false ->
             Resource.configurations (resource_at w' resource)
               !! Configuration.name (configuration_at w old) = Some old))
  /\ c = newConfiguration t.
Proof.
  intros Hok Hfin. apply update_set_ok_NoDup in Hok.
  unfold finished in Hfin. simpl in Hfin.
  set (w0 := update_configuration (set_computedStatus Status.notapplied)
               (currentConfiguration t) w) in *.
  destruct (oldConfiguration t) as [old|] eqn:Hold.
  - destruct (String.eqb _ _); [|discriminate].
    simpl in Hfin. inversion Hfin; subst; clear Hfin. simpl.
    split; [|split; [|split; [reflexivity|split; [|reflexivity]]]].
    + intros name resource saved Hin.
      apply (revert_fold_saved _ _ (name, (resource, saved)) Hok Hin).
    + intros resource Hnotin.
      fold revert_step. rewrite revert_fold_other by exact Hnotin.
      unfold update_resource. simpl.
      match goal with
      | |- context [alter ?f ?a ?g resource] =>
          destruct (decide (a = resource)) as [->|Hne];
          [rewrite fn_lookup_alter|rewrite fn_lookup_alter_ne by assumption]
      end; simpl; rewrite setConfiguration_attributes; reflexivity.
    + intros ? [= <-]. fold revert_step.
      destruct (set_computedStatus_keeps w Status.notapplied (currentConfiguration t)
                  (currentConfiguration t)) as [_ Hres].
      destruct (set_computedStatus_keeps w Status.notapplied (currentConfiguration t)
                  (newConfiguration t)) as [Hnew _].
      fold w0 in Hres, Hnew. rewrite <- Hres, <- Hnew.
      set (resource := Configuration.resource (configuration_at w0 (currentConfiguration t))).
      split; [reflexivity|]. split.
      * match goal with
        | |- context [foldl revert_step ?w1 ?l] =>
            destruct (revert_fold_dicts l w1 resource) as [_ ->]
        end.
        unfold update_resource. simpl. rewrite fn_lookup_alter. simpl.
        rewrite setConfiguration_configuration_at. apply lookup_insert_eq.
      * intros Hne Hcond.
        match goal with
        | |- context [foldl revert_step ?w1 ?l] =>
            destruct (revert_fold_dicts l w1 resource) as [-> _]
        end.
        unfold update_resource. simpl. rewrite fn_lookup_alter. simpl.
        unfold setConfiguration.
        assert (configuration_at w0 old = configuration_at w old) as ->
          by (apply set_computedStatus_elsewhere; exact Hne).
        rewrite Hcond. unfold update_resource. simpl. rewrite fn_lookup_alter. simpl.
        apply lookup_insert_eq.
  - simpl in Hfin. inversion Hfin; subst; clear Hfin. simpl.
    split; [|split; [|split; [reflexivity|split; [|reflexivity]]]].
    + intros name resource saved Hin.
      apply (revert_fold_saved _ _ (name, (resource, saved)) Hok Hin).
    + intros resource Hnotin.
      fold revert_step. rewrite revert_fold_other by exact Hnotin. reflexivity.
    + intros ? [=].
Qed.

Lemma finished_notapplied_reverts_witness :
  exists w' t' c,
    finished (fst web_task_updated) (snd web_task_updated) Status.notapplied
    = Ok (w', t', c)
    /\ Resource.attributes (resource_at (fst web_task_updated) 0%nat) !! "port"
       = Some "8080"
    /\ Resource.attributes (resource_at w' 0%nat) = {["port" := "80"]}.
Proof.
  assert (update_set_ok (fst web_task_updated) (snd web_task_updated)) as Hok.
  { split; simpl.
    - apply NoDup_singleton.
    - repeat constructor. }
  destruct (finished (fst web_task_updated) (snd web_task_updated) Status.notapplied)
    as [[[w' t'] c]|e] eqn:Hfin; [|vm_compute in Hfin; discriminate].
  exists w', t', c. split; [reflexivity|]. split; [reflexivity|].
  apply (finished_notapplied_reverts _ w' _ t' c Hok Hfin) with (name := "server").
  simpl. apply list_elem_of_here.
Defined.

(** The invariant holds for a task that has saved nothing, and every
    [updateResource] keeps it. *)
Lemma update_set_ok_nil (w : World) (t : Task.t) :
  updateResources t = [] -> update_set_ok w t.
Proof. intros H. unfold update_set_ok. rewrite H. split; constructor. Qed.

Lemma recorded_false (t : Task.t) (name : string) :
  recorded t name = false -> name ∉ map fst (updateResources t).
Proof.
  unfold recorded. intros H Hin.
  apply list_elem_of_fmap in Hin as (e & -> & Hin).
  assert (existsb (fun e' => String.eqb (fst e') (fst e)) (updateResources t) = true)
    as Hex.
  { apply existsb_exists. exists e. split; [apply list_elem_of_In; exact Hin|].
    apply String.eqb_refl. }
  congruence.
Qed.

Lemma updateResource_name (w : World) (t : Task.t) (resource : nat)
    (updated : gmap string string) (deleted : list string) (r : nat) :
  Resource.name (resource_at (fst (updateResource w t resource updated deleted)) r)
  = Resource.name (resource_at w r).
Proof.
  unfold updateResource, update_resource. simpl.
  destruct (decide (resource = r)) as [->|Hne];
    [rewrite fn_lookup_alter|rewrite fn_lookup_alter_ne by assumption]; reflexivity.
Qed.

(** X2. Every [updateResource] keeps the update set a dict keyed by the names of
    the resources it saves. *)
Lemma updateResource_ok (w : World) (t : Task.t) (resource : nat)
    (updated : gmap string string) (deleted : list string) :
  update_set_ok w t ->
  update_set_ok (fst (updateResource w t resource updated deleted))
                (snd (updateResource w t resource updated deleted)).
Proof.
  intros [Hk Hn]. unfold update_set_ok.
  assert (forall l,
    Forall (fun e : string * (nat * gmap string string) =>
              Resource.name (resource_at w (fst (snd e))) = fst e) l ->
    Forall (fun e : string * (nat * gmap string string) =>
              Resource.name
                (resource_at (fst (updateResource w t resource updated deleted))
                             (fst (snd e))) = fst e) l) as Hkeep.
  { intros l Hl. eapply List.Forall_impl; [|exact Hl].
    intros e He. simpl in He. rewrite updateResource_name. exact He. }
  assert (snd (updateResource w t resource updated deleted)
          = if recorded t (Resource.name (resource_at w resource)) then t
            else set_updateResources
                   (updateResources t
                    ++ [(Resource.name (resource_at w resource),
                         (resource, Resource.attributes (resource_at w resource)))]) t)
    as -> by reflexivity.
  destruct (recorded t (Resource.name (resource_at w resource))) eqn:Hrec; simpl.
  - split; [exact Hk|]. apply Hkeep, Hn.
  - apply recorded_false in Hrec. split.
    + rewrite map_app. simpl. apply list.NoDup_app. split; [exact Hk|].
      split; [|apply NoDup_singleton].
      intros x Hx Hx'. apply list_elem_of_singleton in Hx'. subst x. contradiction.
    + apply list.Forall_app. split; [apply Hkeep, Hn|].
      repeat constructor. simpl. apply (updateResource_name w t).
Qed.

Lemma updateResource_ok_witness :
  update_set_ok (fst web_task_updated) (snd web_task_updated).
Proof.
  apply (updateResource_ok server_world web_task 0%nat {["port" := "8080"]} []).
  apply update_set_ok_nil. reflexivity.
Defined.

(** C4, as stated, fails: the ["web"] task saves the server's attributes
    at its own update, its sub-task then sets ["owner"] on the server and
    finishes with [ok], and when the ["web"] task finishes with [notapplied]
    the server's attributes are the saved copy again: what the sub-task wrote
    is gone. *)
Lemma parent_revert_drops_subtask_update :
  attribute_after
    (runTask false helper_configurator helper_task (fst web_task_updated))
    0%nat "owner" = Ok (Some "helper")
  /\ computedStatus_after
       (runTask false helper_configurator helper_task (fst web_task_updated))
       2%nat = Ok Status.ok
  /\ computedStatus_after (runTask false web_configurator web_task server_world) 1%nat
     = Ok Status.notapplied
  /\ attribute_after (runTask false web_configurator web_task server_world)
       0%nat "owner" = Ok None.
Proof. repeat split; vm_compute; reflexivity. Qed.

Lemma finished_error (w : World) (t : Task.t) :
  finished w t Status.error
  = Ok (update_configuration (set_computedStatus Status.error) (currentConfiguration t) w,
        t, newConfiguration t).
Proof. reflexivity. Qed.



End TaskFacts.

(** ** Candidates and the work already done *)
Section CandidateFacts.



Lemma key_eqb_refl (k : string * string) : Runner.key_eqb k k = true.
Proof. unfold Runner.key_eqb. rewrite !String.eqb_refl. reflexivity. Qed.

Lemma assign_has_key (d : Runner.workDone) (key : string * string) (task : Task.t) :
  existsb (fun e => Runner.key_eqb (fst e) key) (Runner.assign d key task) = true.
Proof.
  induction d as [|[k v] rest IH]; simpl.
  - rewrite key_eqb_refl. reflexivity.
  - destruct (Runner.key_eqb k key) eqn:Hk; simpl; rewrite Hk; simpl; [reflexivity|exact IH].
Qed.

(** X4. Once [addWork] has recorded a task, the spec of its current
    configuration counts as handled when the configuration's resource is the
    spec's target. *)
Lemma addWork_handled (w : World) (workDone : Runner.workDone) (task : Task.t) :
  let config := configuration_at w (Task.currentConfiguration task) in
  Resource.name (resource_at w (Configuration.resource config))
  = ConfigurationSpec.target (Configuration.configurationSpec config) ->
  Runner.isConfigAlreadyHandled (Runner.addWork w workDone task)
                                (Configuration.configurationSpec config) = true.
Proof.
  intros config Htarget. unfold Runner.isConfigAlreadyHandled, Runner.addWork.
  fold config. rewrite Htarget. apply assign_has_key.
Qed.

Lemma addWork_handled_witness :
  Runner.isConfigAlreadyHandled (Runner.addWork server_world [] helper_task) helper_spec
  = true.
Proof. apply (addWork_handled server_world [] helper_task). reflexivity. Defined.

(** X5. In job.py the runner's state has no part in the choice of the next
    candidate. *)
Lemma unfurl_next_candidate_ignores_runner (job : Unfurl.Job)
    (runner runner' : Unfurl.Runner)
    (plan : list (Unfurl.ConfigurationSpec * Unfurl.Instance * option string)) :
  Unfurl.next_candidate job runner plan = Unfurl.next_candidate job runner' plan.
Proof.
  induction plan as [|[[configSpec target] reason] rest IH]; simpl; [reflexivity|].
  destruct (fst (Unfurl.filterConfig job configSpec target)); [reflexivity|exact IH].
Qed.

(** C5, on the code of job.py.  A task for ["web"] on ["server"] is
    recorded in [workDone]; when the plan then gives ["web"] on ["server"],
    the candidate is not skipped: a second task is made for the same target
    and spec. *)
Theorem unfurl_handled_candidate_not_skipped :
  map fst (Unfurl.workDone (Unfurl.currentJob Unfurl.handled_runner))
  = ["server:web:configure:1"]
  /\ Unfurl.next_candidate (Unfurl.currentJob Unfurl.handled_runner)
                           Unfurl.handled_runner
                           [(Unfurl.web_spec, Unfurl.server, Some "add")]
     = Some (Unfurl.mkConfigTask Unfurl.web_spec Unfurl.server (Some "add") 1, []).
Proof. split; [vm_compute; reflexivity|reflexivity]. Qed.

(** The filter of job.py compares the intent with the str ['discover'] as
    well: a read-only job drops a spec whose intent is [Action.discover]. *)
Example unfurl_filterConfig_readonly_drops_discover :
  Unfurl.filterConfig Unfurl.readonly_job Unfurl.discover_spec Unfurl.server
  = (None, Some "read only").
Proof. reflexivity. Qed.

End CandidateFacts.

(** ** Quoted keys and items in include expansion *)
Section IncludeFacts.
Import Includes.

Lemma substring_all (s : string) : String.substring 0 (String.length s) s = s.
Proof. induction s as [|a s IH]; simpl; [reflexivity|]. rewrite IH. reflexivity. Qed.

Lemma drop_chars_1 (a : ascii) (s : string) : drop_chars 1 (String a s) = s.
Proof.
  unfold drop_chars. simpl. rewrite Nat.sub_0_r. apply substring_all.
Qed.

Lemma drop_chars_2 (a b : ascii) (s : string) :
  drop_chars 2 (String a (String b s)) = s.
Proof.
  unfold drop_chars. simpl. rewrite Nat.sub_0_r. apply substring_all.
Qed.

(** X6. A list item [q+rest] is not an include: [expandList] gives the item
    [+rest], with the plus sign kept. *)
Lemma expandList_quoted_item
    (expandDict_rec : Value -> list Seg -> Includes -> Dict -> result (Includes * Value))
    (doc : Value) (path : list Seg) (includes : Includes) (i : nat) (rest : string) :
  expandList expandDict_rec doc path includes i
             [VStr (String "q" (String "+" rest))]
  = Ok (includes, [VStr (String "+" rest)]).
Proof. cbn -[drop_chars]. rewrite drop_chars_1. destruct rest; reflexivity. Qed.

(** X7. A key [q+rest] is not an include either, but [expandDict] files its
    value under [rest]: the [q] and the plus sign are both removed. *)
Lemma expandDict_loop_quoted_key
    (expandDict_rec : Value -> list Seg -> Includes -> Dict -> result (Includes * Value))
    (doc : Value) (path : list Seg) (size : nat) (rest : string) (value : Value)
    (items : Dict) (includes : Includes) (cp : Dict) (templates : list Dict) :
  expandDict_loop expandDict_rec doc path size
                  ((String "q" (String "+" rest), value) :: items)
                  includes cp templates
  = expandDict_loop expandDict_rec doc path size items includes
                    (dict_set cp rest value) templates.
Proof. cbn -[drop_chars]. rewrite drop_chars_2. destruct rest; reflexivity. Qed.

(** C8, on the code.  The document [{'q+foo': 'bar'}] expands to
    [{'foo': 'bar'}]: the key has lost its plus sign, where the list item of
    [{'items': ['q+foo']}] keeps it. *)
Theorem expandDict_quoted_key_loses_plus :
  expandDoc 8 quoted_key_doc = Ok ([], VDict [("foo", VStr "bar")])
  /\ expandDoc 8 quoted_item_doc = Ok ([], VDict [("items", VList [VStr "+foo"])]).
Proof. split; reflexivity. Qed.

End IncludeFacts.

(** ** The class registry and [toEnum] *)
Section UtilFacts.
Import Util.

Lemma registered_registerClass (registry registry' : Registry)
    (apiVersion kind : string) (factory : nat) (replace : bool)
    (apiVersion' kind' : string) :
  registerClass registry apiVersion kind factory replace = Ok registry' ->
  registered registry' apiVersion' kind' =
  if bool_decide (apiVersion' = apiVersion /\ kind' = kind) then Some factory
  else registered registry apiVersion' kind'.
Proof.
  unfold registerClass, registered. destruct (_ && _); [discriminate|].
  intros [= <-]. case_bool_decide as Hd.
  - destruct Hd as [-> ->]. rewrite lookup_insert_eq. simpl. apply lookup_insert_eq.
  - destruct (decide (apiVersion' = apiVersion)) as [->|Hv].
    + rewrite lookup_insert_eq. simpl.
      rewrite lookup_insert_ne by (intros ->; apply Hd; split; reflexivity).
      destruct (registry !! apiVersion); reflexivity.
    + rewrite lookup_insert_ne by congruence. reflexivity.
Qed.

(** X8. Only one class is associated with a kind of an api version: a
    [registerClass] without [replace] that returns leaves every registration
    that was there as it was, and the kind it was called for is registered
    to the factory given. *)
Theorem registerClass_keeps_registrations (registry registry' : Registry)
    (apiVersion kind : string) (factory : nat) :
  registerClass registry apiVersion kind factory false = Ok registry' ->
  registered registry' apiVersion kind = Some factory
  /\ forall apiVersion' kind' factory',
       registered registry apiVersion' kind' = Some factory' ->
       registered registry' apiVersion' kind' = Some factory'.
Proof.
  intros Hreg. split.
  - rewrite (registered_registerClass _ _ _ _ _ _ _ _ Hreg).
    rewrite bool_decide_eq_true_2 by (split; reflexivity). reflexivity.
  - intros apiVersion' kind' factory' Hold.
    rewrite (registered_registerClass _ _ _ _ _ _ _ _ Hreg).
    case_bool_decide as Hd; [|exact Hold].
    destruct Hd as [-> ->].
    unfold registerClass in Hreg. unfold registered in Hold.
    destruct (registry !! apiVersion) as [api|] eqn:Hapi; simpl in *; [|discriminate].
    rewrite Hold in Hreg.
    rewrite bool_decide_eq_true_2 in Hreg by eauto. simpl in Hreg.
    case_bool_decide as Hf; simpl in Hreg; [congruence|discriminate].
Qed.

Lemma registerClass_keeps_registrations_witness :
  registered (<["v1" := {["Shell" := 7%nat]}]> ∅ : Registry) "v1" "Shell" = Some 7%nat
  /\ registered (<["v1" := <["Ansible" := 9%nat]> {["Shell" := 7%nat]}]> ∅ : Registry)
                "v1" "Shell" = Some 7%nat
  /\ registerClass (<["v1" := {["Shell" := 7%nat]}]> ∅) "v1" "Shell" 8%nat false
     = Raise (GitErOpError "class already registered").
Proof.
  split; [reflexivity|]. split; [|reflexivity].
  apply (registerClass_keeps_registrations
           (<["v1" := {["Shell" := 7%nat]}]> ∅)
           (<["v1" := <["Ansible" := 9%nat]> {["Shell" := 7%nat]}]> ∅)
           "v1" "Ansible" 9%nat); reflexivity.
Defined.



Lemma Status_lookup_name (s : Status.t) : Status_lookup (Status_name s) = Some s.
Proof. destruct s; reflexivity. Qed.

Lemma Status_lookup_Some (name : string) (s : Status.t) :
  Status_lookup name = Some s -> Status_name s = name.
Proof.
  unfold Status_lookup. intros H.
  destruct (list_find _ _) as [[i x]|] eqn:Hf; simpl in H; [|discriminate].
  injection H as ->. apply list_find_Some in Hf as (_ & Heq & _).
  apply String.eqb_eq. destruct (String.eqb (Status_name s) name); [reflexivity|].
  exfalso. apply Heq.
Qed.

(** X10. [toEnum(Status, value)] turns the name of a member into the member
    and back: a str is never replaced by the default, the name of a member
    gives that member, and a member is found only under its own name; any
    other str raises [KeyError]. *)
Theorem toEnum_Status_names (default_ : option Status.t) :
  (forall s, toEnum Status_lookup (ArgStr (Status_name s)) default_
             = Returns (ArgMember s))
  /\ (forall name s,
         toEnum Status_lookup (ArgStr name) default_ = Returns (ArgMember s) ->
         Status_name s = name)
  /\ (forall name,
         (forall s, Status_name s <> name) ->
         toEnum Status_lookup (ArgStr name) default_ = Throws (KeyError name)).
Proof.
  split; [|split].
  - intros s. simpl. rewrite Status_lookup_name. reflexivity.
  - intros name s. simpl.
    destruct (Status_lookup name) as [s'|] eqn:Hl; [|discriminate].
    intros [= <-]. apply Status_lookup_Some. exact Hl.
  - intros name Hnone. simpl.
    destruct (Status_lookup name) as [s|] eqn:Hl; [|reflexivity].
    apply Status_lookup_Some in Hl. exfalso. exact (Hnone s Hl).
Qed.

Lemma toEnum_Status_names_witness :
  toEnum Status_lookup (ArgStr "degraded") None = Returns (ArgMember Status.degraded)
  /\ toEnum Status_lookup (ArgStr "pending") (Some Status.ok) = Throws (KeyError "pending").
Proof.
  split.
  - exact (proj1 (toEnum_Status_names None) Status.degraded).
  - apply (proj2 (proj2 (toEnum_Status_names (Some Status.ok)))).
    intros s. destruct s; discriminate.
Defined.

End UtilFacts.

(** ** Templates in a document *)
Section TemplateFacts.
Import Includes Templates.

(** A str is not among the strs of a list written out. *)
Ltac not_in_list :=
  simpl; let H := fresh in
  intros H; repeat (apply elem_of_cons in H as [H|H]; [discriminate H|]);
  inversion H.

Lemma dict_get_set_eq (d : Dict) (key : string) (v : Value) :
  dict_get (dict_set d key v) key = Some v.
Proof.
  induction d as [|[k x] rest IH]; simpl.
  - rewrite String.eqb_refl. reflexivity.
  - destruct (String.eqb k key) eqn:Hk; simpl; rewrite Hk; [reflexivity|exact IH].
Qed.

Lemma dict_get_set_ne (d : Dict) (key key' : string) (v : Value) :
  key <> key' -> dict_get (dict_set d key v) key' = dict_get d key'.
Proof.
  intros Hne. induction d as [|[k x] rest IH]; simpl.
  - destruct (String.eqb key key') eqn:Hk; [apply String.eqb_eq in Hk; contradiction|].
    reflexivity.
  - destruct (String.eqb k key) eqn:Hk; simpl.
    + apply String.eqb_eq in Hk. subst k.
      destruct (String.eqb key key') eqn:Hk'; [apply String.eqb_eq in Hk'; contradiction|].
      reflexivity.
    + destruct (String.eqb k key'); [reflexivity|exact IH].
Qed.

(** Once a [..] segment has set [templatePath], the next segment ends the
    loop of [getTemplate] in an exception. *)
Lemma getTemplate_loop_after_dotdot (doc : Value) (path : list Seg)
    (segment : string) (rest : list string) (template : Value) (tp : list Seg) :
  exists e, getTemplate_loop doc path (segment :: rest) template (Some tp) = Raise e.
Proof.
  simpl. destruct (String.eqb segment "..").
  - destruct (lookupPath doc (removelast tp)) as [| | | |d]; eauto.
    destruct (dict_get d segment); eauto.
  - destruct template as [| | | |d]; eauto.
    destruct (dict_get d segment); eauto.
Qed.

Lemma getTemplate_loop_dotdot (doc : Value) (path : list Seg) (segments : list string)
    (template : Value) (templatePath : option (list Seg)) :
  ".." ∈ segments ->
  exists e, getTemplate_loop doc path segments template templatePath = Raise e.
Proof.
  revert template templatePath.
  induction segments as [|segment rest IH]; intros template templatePath Hin;
    [inversion Hin|].
  destruct templatePath as [tp|]; [apply getTemplate_loop_after_dotdot|].
  apply elem_of_cons in Hin as [<-|Hin].
  - simpl.
    destruct (lookupPath doc (removelast path)) as [| | | |d]; eauto.
    destruct (dict_get d ".."); eauto.
  - simpl. destruct (String.eqb segment "..").
    + destruct (lookupPath doc (removelast path)) as [| | | |d]; eauto.
      destruct (dict_get d segment); eauto.
    + destruct template as [| | | |d]; eauto.
      destruct (dict_get d segment); eauto.
Qed.

(** X11. An include whose key has a [..] segment never resolves:
    [getTemplate] ends in an exception for every document, value and path
    ([templatePath] is then a slice of the tuple [path], which has no
    [append]; or the segment [..] itself is not a key of the map). *)
Theorem getTemplate_dotdot_raises
    (expandDict_rec : Value -> list Seg -> Includes -> Dict -> result (Includes * Value))
    (doc : Value) (key : string) (value : Value) (path : list Seg) :
  ".." ∈ split_slash key ->
  exists e, getTemplate expandDict_rec doc key value path = Raise e.
Proof.
  intros Hin. unfold getTemplate.
  destruct (getTemplate_loop_dotdot doc path (split_slash key) doc None Hin) as [e ->].
  exists e. reflexivity.
Qed.

Lemma getTemplate_dotdot_raises_witness :
  exists e,
    getTemplate (expandDict 8)
      (VDict [("a", VDict [("x", VInt 1)]); ("b", VDict [("+../a", VNone)])])
      "../a" VNone [SegKey "b"] = Raise e.
Proof.
  apply (getTemplate_dotdot_raises (expandDict 8)). simpl. apply list_elem_of_here.
Defined.

(** Without [..] segments the loop of [getTemplate] succeeds exactly when
    the loop of [hasTemplate] answers [True], and then gives the value found
    by walking the key down from the template. *)
Lemma getTemplate_loop_hasTemplate (doc : Value) (path : list Seg)
    (segments : list string) (template : Value) :
  ".." ∉ segments ->
  getTemplate_loop doc path segments template None =
  match hasTemplate_loop doc path segments template with
  | Ok true => Ok (lookupPath template (map SegKey segments), None)
  | _ => Raise (GitErOpError "can not find key in document")
  end.
Proof.
  revert template. induction segments as [|segment rest IH]; intros template Hnot;
    [reflexivity|].
  apply not_elem_of_cons in Hnot as [Hne Hnot].
  simpl. destruct (String.eqb segment "..") eqn:Hs;
    [apply String.eqb_eq in Hs; congruence|].
  destruct template as [| | | |d]; try reflexivity.
  destruct (dict_get d segment) as [v|]; [|reflexivity].
  apply IH. exact Hnot.
Qed.

(** X12. [hasTemplate] and [getTemplate] agree on a key without [..]
    segments: when [hasTemplate] returns [True] the lookup of [getTemplate]
    finds the value at the key's path, and when it returns [False] or raises,
    [getTemplate] raises [GitErOpError]. *)
Theorem hasTemplate_agrees_with_getTemplate (doc : Value) (key : string)
    (path : list Seg) :
  ".." ∉ split_slash key ->
  (hasTemplate doc key path = Ok true ->
   getTemplate_loop doc path (split_slash key) doc None
   = Ok (lookupPath doc (map SegKey (split_slash key)), None))
  /\ (hasTemplate doc key path <> Ok true ->
      getTemplate_loop doc path (split_slash key) doc None
      = Raise (GitErOpError "can not find key in document")).
Proof.
  intros Hnot. rewrite getTemplate_loop_hasTemplate by exact Hnot.
  unfold hasTemplate. split.
  - intros ->. reflexivity.
  - intros Hne. destruct (hasTemplate_loop _ _ _ _) as [[|]|e]; [congruence|reflexivity..].
Qed.

Lemma hasTemplate_agrees_with_getTemplate_witness :
  getTemplate_loop (VDict [("a", VDict [("x", VInt 1)])]) [] (split_slash "a/x")
                   (VDict [("a", VDict [("x", VInt 1)])]) None
  = Ok (VInt 1, None)
  /\ getTemplate_loop (VDict [("a", VDict [("x", VInt 1)])]) [] (split_slash "a/y")
                      (VDict [("a", VDict [("x", VInt 1)])]) None
     = Raise (GitErOpError "can not find key in document").
Proof.
  split.
  - apply (hasTemplate_agrees_with_getTemplate
             (VDict [("a", VDict [("x", VInt 1)])]) "a/x" []);
      [not_in_list|reflexivity].
  - apply (hasTemplate_agrees_with_getTemplate
             (VDict [("a", VDict [("x", VInt 1)])]) "a/y" []);
      [not_in_list|discriminate].
Defined.

Lemma common_prefix_own (keys : list string) (rest : list Seg) :
  common_prefix Seg_is_key (map SegKey keys ++ rest) keys = length keys.
Proof.
  induction keys as [|k keys IH]; simpl; [destruct rest; reflexivity|].
  rewrite String.eqb_refl, IH. reflexivity.
Qed.

(** X13. An include of the map that contains it, or of a map above it, is
    refused: when the key (without [..]) names a map and the path of the
    include site starts with the key's path, [getTemplate] raises
    [GitErOpError] ("recursive include") and does not expand anything, unless
    the directive's value is ['raw']. *)
Theorem getTemplate_recursive_include
    (expandDict_rec : Value -> list Seg -> Includes -> Dict -> result (Includes * Value))
    (doc : Value) (key : string) (value : Value) (rest : list Seg) (d : Dict) :
  ".." ∉ split_slash key ->
  hasTemplate doc key (map SegKey (split_slash key) ++ rest) = Ok true ->
  lookupPath doc (map SegKey (split_slash key)) = VDict d ->
  Value_is_str value "raw" = false ->
  getTemplate expandDict_rec doc key value (map SegKey (split_slash key) ++ rest)
  = Raise (GitErOpError "recursive include").
Proof.
  intros Hnot Hhas Hd Hraw. unfold getTemplate.
  rewrite getTemplate_loop_hasTemplate by exact Hnot.
  unfold hasTemplate in Hhas. rewrite Hhas. simpl. rewrite Hd, Hraw. simpl.
  rewrite common_prefix_own, Nat.eqb_refl. reflexivity.
Qed.

Lemma getTemplate_recursive_include_witness :
  getTemplate (expandDict 8) (VDict [("a", VDict [("+a", VNone)])]) "a" VNone
              [SegKey "a"]
  = Raise (GitErOpError "recursive include").
Proof.
  apply (getTemplate_recursive_include (expandDict 8)
           (VDict [("a", VDict [("+a", VNone)])]) "a" VNone [] [("+a", VNone)]);
    [not_in_list|reflexivity..].
Defined.

Lemma split_slash_nonempty (s : string) : split_slash s <> [].
Proof.
  destruct s as [|a s]; simpl; [discriminate|].
  destruct (Ascii.eqb a "/"); [discriminate|].
  destruct (split_slash s); discriminate.
Qed.

Lemma addTemplate_at_found (doc : Value) (path : list Seg) (segments : list string)
    (last : string) (template current current' : Value) :
  ".." ∉ segments ++ [last] ->
  addTemplate_at current segments last template = (current', None) ->
  hasTemplate_loop doc path (segments ++ [last]) current' = Ok true
  /\ lookupPath current' (map SegKey (segments ++ [last])) = template.
Proof.
  revert current current'.
  induction segments as [|segment rest IH]; intros current current' Hnot Hadd.
  - simpl in *. apply not_elem_of_cons in Hnot as [Hne _].
    destruct current as [| | | |d]; try discriminate. injection Hadd as <-.
    simpl. destruct (String.eqb last "..") eqn:Hs;
      [apply String.eqb_eq in Hs; congruence|].
    rewrite dict_get_set_eq. split; reflexivity.
  - simpl in Hnot. apply not_elem_of_cons in Hnot as [Hne Hnot].
    simpl in Hadd. destruct current as [| | | |d]; try discriminate.
    destruct (addTemplate_at (default (VDict []) (dict_get d segment)) rest last template)
      as [child e] eqn:Hchild.
    injection Hadd as <- ->.
    destruct (IH _ _ Hnot Hchild) as [Hhas Hlook].
    simpl. destruct (String.eqb segment "..") eqn:Hs;
      [apply String.eqb_eq in Hs; congruence|].
    rewrite dict_get_set_eq. split; assumption.
Qed.

(** X14. What [addTemplate] puts into a document is found again: when the
    call ends without an exception (and the path has no [..] segment),
    [hasTemplate] answers [True] for the path and the value at the path is the
    template. *)
Theorem addTemplate_then_found (changedDoc changedDoc' : Value) (path : string)
    (template : Value) (site : list Seg) :
  ".." ∉ split_slash path ->
  addTemplate changedDoc path template = (changedDoc', None) ->
  hasTemplate changedDoc' path site = Ok true
  /\ lookupPath changedDoc' (map SegKey (split_slash path)) = template.
Proof.
  intros Hnot Hadd. unfold addTemplate in Hadd. unfold hasTemplate.
  pose proof (app_removelast_last "" (split_slash_nonempty path)) as Hsplit.
  assert (".." ∉ removelast (split_slash path) ++ [List.last (split_slash path) ""])
    as Hnot' by (rewrite <- Hsplit; exact Hnot).
  destruct (addTemplate_at_found changedDoc' site _ _ _ _ _ Hnot' Hadd) as [H1 H2].
  rewrite <- Hsplit in H1, H2. split; assumption.
Qed.

Lemma addTemplate_then_found_witness :
  addTemplate (VDict [("a", VInt 1)]) "templates/web" (VStr "t")
  = (VDict [("a", VInt 1); ("templates", VDict [("web", VStr "t")])], None)
  /\ hasTemplate (VDict [("a", VInt 1); ("templates", VDict [("web", VStr "t")])])
                 "templates/web" [] = Ok true.
Proof.
  split; [reflexivity|].
  apply (addTemplate_then_found (VDict [("a", VInt 1)]) _ "templates/web" (VStr "t") []);
    [not_in_list|reflexivity].
Defined.

Lemma dict_set_fresh (cp : Dict) (key : string) (v : Value) :
  key ∉ map fst cp -> dict_set cp key v = cp ++ [(key, v)].
Proof.
  induction cp as [|[k x] rest IH]; simpl; intros Hnot; [reflexivity|].
  apply not_elem_of_cons in Hnot as [Hne Hnot].
  destruct (String.eqb k key) eqn:Hk; [apply String.eqb_eq in Hk; congruence|].
  rewrite IH by exact Hnot. reflexivity.
Qed.

Lemma plain_str_prefixes (s : string) :
  plain_str s = true -> String.prefix "+" s = false /\ String.prefix "q+" s = false.
Proof.
  unfold plain_str. intros H. apply andb_prop in H as [H1 H2].
  apply negb_true_iff in H1, H2. split; assumption.
Qed.

Section PlainDocuments.

Variable expandDict_rec :
  Value -> list Seg -> Includes -> Dict -> result (Includes * Value).
Variable n : nat.
Hypothesis rec_plain :
  forall doc path includes d,
    plain (VDict d) = true -> unique_keys (VDict d) = true ->
    (dict_depth (VDict d) <= n)%nat ->
    expandDict_rec doc path includes d = Ok (includes, VDict d).

Lemma expandList_plain (doc : Value) (path : list Seg) (includes : Includes)
    (l : list Value) (i : nat) :
  plain (VList l) = true -> unique_keys (VList l) = true ->
  (dict_depth (VList l) <= n)%nat ->
  expandList expandDict_rec doc path includes i l = Ok (includes, l).
Proof.
  revert i. induction l as [|item rest IH]; intros i Hplain Huniq Hdepth;
    [reflexivity|].
  simpl in Hplain, Huniq, Hdepth.
  apply andb_prop in Hplain as [Hitem Hplain]. apply andb_prop in Hitem as [Hi Hp].
  apply andb_prop in Huniq as [Hu Huniq].
  assert ((dict_depth item <= n)%nat) as Hd by lia.
  assert ((dict_depth (VList rest) <= n)%nat) as Hdrest by (simpl; lia).
  specialize (IH (S i) Hplain Huniq Hdrest).
  destruct item as [|s|z|l'|d]; simpl; try (rewrite IH; reflexivity).
  - simpl in Hi. apply plain_str_prefixes in Hi as [-> ->]. simpl.
    rewrite IH. reflexivity.
  - rewrite (rec_plain doc _ includes d Hp Hu Hd). simpl. rewrite IH. reflexivity.
Qed.

Lemma expandDict_loop_plain (doc : Value) (path : list Seg) (size : nat)
    (items : Dict) (includes : Includes) (cp : Dict) :
  plain (VDict items) = true ->
  forallb (fun e => unique_keys (snd e)) items = true ->
  NoDup (map fst (cp ++ items)) ->
  (dict_depth (VDict items) <= S n)%nat ->
  expandDict_loop expandDict_rec doc path size items includes cp []
  = Ok (includes, inr (cp ++ items, [])).
Proof.
  revert cp. induction items as [|[key value] rest IH]; intros cp Hplain Huniq Hnd Hdepth.
  - simpl. rewrite app_nil_r. reflexivity.
  - simpl in Hplain, Huniq, Hdepth.
    apply andb_prop in Hplain as [Hkv Hplain]. apply andb_prop in Hkv as [Hk Hv].
    apply andb_prop in Huniq as [Hu Huniq].
    assert ((dict_depth value <= n)%nat) as Hd by lia.
    assert (key ∉ map fst cp) as Hfresh.
    { rewrite map_app in Hnd. apply list.NoDup_app in Hnd as (_ & Hdis & Hr).
      intros Hin. apply (Hdis key Hin). simpl. apply list_elem_of_here. }
    assert (NoDup (map fst ((cp ++ [(key, value)]) ++ rest))) as Hnd'
      by (rewrite <- app_assoc; exact Hnd).
    assert ((dict_depth (VDict rest) <= S n)%nat) as Hdrest by (simpl; lia).
    specialize (IH (cp ++ [(key, value)]) Hplain Huniq Hnd' Hdrest).
    rewrite <- app_assoc in IH. simpl in IH.
    simpl. apply plain_str_prefixes in Hk as [-> ->].
    destruct value as [|s|z|l|d]; simpl;
      try (rewrite dict_set_fresh by exact Hfresh; exact IH).
    + rewrite (expandList_plain doc _ includes l 0 Hv Hu Hd). simpl.
      rewrite dict_set_fresh by exact Hfresh. exact IH.
    + rewrite (rec_plain doc _ includes d Hv Hu Hd). simpl.
      rewrite dict_set_fresh by exact Hfresh. exact IH.
Qed.

End PlainDocuments.

(** X15. Expanding a map that has no include directive gives the map back
    and records no include: for every map whose keys and str list items,
    at every level, start neither with [+] nor with [q+], [expandDict]
    returns the map itself and leaves [includes] as it was, provided the
    nesting of its maps is within the recursion limit. *)
Theorem expandDict_plain (depth : nat) (doc : Value) (path : list Seg)
    (includes : Includes) (current : Dict) :
  plain (VDict current) = true ->
  unique_keys (VDict current) = true ->
  (dict_depth (VDict current) <= depth)%nat ->
  expandDict depth doc path includes current = Ok (includes, VDict current).
Proof.
  revert doc path includes current.
  induction depth as [|n IH]; intros doc path includes current Hplain Huniq Hdepth.
  - simpl in Hdepth. lia.
  - simpl. unfold expandDict_body.
    simpl in Huniq. apply andb_prop in Huniq as [Hnd Huniq].
    apply bool_decide_eq_true_1 in Hnd.
    rewrite (expandDict_loop_plain (expandDict n) n IH doc path (length current)
               current includes [] Hplain Huniq Hnd Hdepth).
    reflexivity.
Qed.

Lemma expandDict_plain_witness :
  expandDict 2 VNone [] []
    [("name", VStr "web"); ("ports", VList [VInt 80; VStr "http"]);
     ("meta", VDict [("owner", VStr "+ops")])]
  = Ok ([], VDict [("name", VStr "web"); ("ports", VList [VInt 80; VStr "http"]);
                   ("meta", VDict [("owner", VStr "+ops")])]).
Proof.
  apply (expandDict_plain 2); [reflexivity|vm_compute; reflexivity|simpl; lia].
Defined.

End TemplateFacts.

(** ** Tasks: updates and their reversal *)
Section UpdateFacts.
Import Task.

Lemma delete_all_lookup (deleted : list string) (m : gmap string string) (key : string) :
  foldl (fun a k => delete k a) m deleted !! key
  = if bool_decide (key ∈ deleted) then None else m !! key.
Proof.
  revert m. induction deleted as [|k l IH]; intros m; cbn [foldl].
  - rewrite bool_decide_eq_false_2 by apply not_elem_of_nil. reflexivity.
  - rewrite IH. destruct (decide (key ∈ l)) as [Hl|Hl].
    + rewrite (bool_decide_eq_true_2 _ Hl).
      rewrite bool_decide_eq_true_2 by (right; exact Hl). reflexivity.
    + rewrite (bool_decide_eq_false_2 _ Hl).
      destruct (decide (key = k)) as [->|Hne].
      * rewrite lookup_delete_eq, bool_decide_eq_true_2 by left. reflexivity.
      * rewrite lookup_delete_ne by congruence.
        rewrite bool_decide_eq_false_2; [reflexivity|].
        intros Hin. apply elem_of_cons in Hin as [?|?]; contradiction.
Qed.

(** X16. [updateResource] on a resource: a key of [updated] gets the new
    value, also when it is among [deleted]; another key of [deleted] is
    removed; every other attribute keeps its value; and no other resource is
    touched. *)
Theorem updateResource_attributes (w : World) (t : Task.t) (resource : nat)
    (updated : gmap string string) (deleted : list string) :
  (forall key,
      Resource.attributes
        (resource_at (fst (updateResource w t resource updated deleted)) resource) !! key
      = match updated !! key with
        | Some v => Some v
        | None => if bool_decide (key ∈ deleted) then None
                  else Resource.attributes (resource_at w resource) !! key
        end)
  /\ (forall other,
         other <> resource ->
         resource_at (fst (updateResource w t resource updated deleted)) other
         = resource_at w other).
Proof.
  split.
  - intros key. unfold updateResource, update_resource. simpl.
    rewrite fn_lookup_alter. simpl. rewrite lookup_union, delete_all_lookup.
    destruct (updated !! key); destruct (bool_decide _);
      try destruct (_ !! key); reflexivity.
  - intros other Hne. unfold updateResource, update_resource. simpl.
    apply fn_lookup_alter_ne. congruence.
Qed.

Lemma set_attributes_same (r : Resource.t) :
  Resource.set_attributes (Resource.attributes r) r = r.
Proof. destruct r; reflexivity. Qed.

Lemma set_attributes_twice (a b : gmap string string) (r : Resource.t) :
  Resource.set_attributes a (Resource.set_attributes b r) = Resource.set_attributes a r.
Proof. reflexivity. Qed.

Lemma revert_fold_saved_record (l : list (string * (nat * gmap string string)))
    (w : World) (e : string * (nat * gmap string string)) :
  NoDup (map (fun e => fst (snd e)) l) ->
  e ∈ l ->
  resource_at (foldl revert_step w l) (fst (snd e))
  = Resource.set_attributes (snd (snd e)) (resource_at w (fst (snd e))).
Proof.
  revert w. induction l as [|e' l IH]; intros w Hnd Hin; [inversion Hin|].
  simpl in *. inversion Hnd as [|? ? Hnotin Hnd']; subst.
  apply elem_of_cons in Hin as [->|Hin].
  - rewrite revert_fold_other by assumption.
    unfold revert_step, update_resource. simpl.
    rewrite fn_lookup_alter. reflexivity.
  - rewrite IH by assumption.
    unfold revert_step, update_resource. simpl.
    destruct (decide (fst (snd e') = fst (snd e))) as [Heq|Hne].
    + rewrite Heq, fn_lookup_alter. reflexivity.
    + rewrite fn_lookup_alter_ne by assumption. reflexivity.
Qed.

(** What a sequence of [updateResource] calls keeps true, from a task that
    has saved nothing, when the resources updated have distinct names: every
    resource differs from what it was in its attributes only, what is saved
    for a resource is what its attributes were, and a resource that is not
    saved is as it was. *)
Lemma updateResource_all_inv (w0 : World) (t0 : Task.t)
    (calls : list (nat * gmap string string * list string)) (touched : nat -> Prop) :
  updateResources t0 = [] ->
  (forall r1 r2, touched r1 -> touched r2 ->
     Resource.name (resource_at w0 r1) = Resource.name (resource_at w0 r2) -> r1 = r2) ->
  Forall (fun call => touched (fst (fst call))) calls ->
  let after := updateResource_all w0 t0 calls in
  (forall r, exists a, resource_at (fst after) r
                       = Resource.set_attributes a (resource_at w0 r))
  /\ Forall (fun e => touched (fst (snd e))
                      /\ fst e = Resource.name (resource_at w0 (fst (snd e)))
                      /\ snd (snd e) = Resource.attributes (resource_at w0 (fst (snd e))))
            (updateResources (snd after))
  /\ (forall r, r ∉ saved_resources (snd after) ->
                resource_at (fst after) r = resource_at w0 r)
  /\ NoDup (saved_resources (snd after)).
Proof.
  intros Hnil Hinj Hcalls.
  induction calls as [|call calls IH] using rev_ind; simpl.
  - unfold saved_resources. rewrite Hnil. simpl.
    split; [|split; [constructor|split; [reflexivity|constructor]]].
    intros r. exists (Resource.attributes (resource_at w0 r)).
    symmetry. apply set_attributes_same.
  - apply list.Forall_app in Hcalls as [Hcalls Hcall].
    inversion Hcall as [|? ? HS _]; subst. clear Hcall.
    specialize (IH Hcalls). simpl in IH.
    unfold updateResource_all in *. rewrite foldl_app. cbn [foldl].
    destruct (foldl _ (w0, t0) calls) as [w t] eqn:Hfold.
    destruct call as [[resource updated] deleted]. cbn [fst snd] in *.
    destruct IH as (Hrec & Hsaved & Hother & Hnd).
    assert (Resource.name (resource_at w resource)
            = Resource.name (resource_at w0 resource)) as Hname.
    { destruct (Hrec resource) as [a ->]. reflexivity. }
    assert (forall r, exists a,
               resource_at (fst (updateResource w t resource updated deleted)) r
               = Resource.set_attributes a (resource_at w0 r)) as Hrec'.
    { intros r. unfold updateResource, update_resource. simpl.
      destruct (Hrec r) as [a Ha].
      destruct (decide (resource = r)) as [->|Hne].
      - rewrite fn_lookup_alter, Ha. eexists. apply set_attributes_twice.
      - rewrite fn_lookup_alter_ne by assumption. exists a. exact Ha. }
    split; [exact Hrec'|].
    assert (snd (updateResource w t resource updated deleted)
            = if recorded t (Resource.name (resource_at w resource)) then t
              else set_updateResources
                     (updateResources t
                      ++ [(Resource.name (resource_at w resource),
                           (resource, Resource.attributes (resource_at w resource)))]) t)
      as -> by reflexivity.
    assert (forall r, r <> resource ->
              resource_at (fst (updateResource w t resource updated deleted)) r
              = resource_at w r) as Hframe.
    { intros r Hne. unfold updateResource, update_resource. simpl.
      apply fn_lookup_alter_ne. congruence. }
    destruct (recorded t (Resource.name (resource_at w resource))) eqn:Hrecorded.
    + split; [exact Hsaved|]. split; [|exact Hnd].
      intros r Hr. rewrite Hframe; [apply Hother; exact Hr|].
      intros ->. apply Hr.
      unfold recorded in Hrecorded. apply existsb_exists in Hrecorded as (e & Hin & He).
      apply String.eqb_eq in He. apply list_elem_of_In in Hin.
      rewrite list.Forall_forall in Hsaved. destruct (Hsaved e Hin) as (HSe & Hkey & _).
      assert (fst (snd e) = resource) as <-.
      { apply Hinj; [exact HSe|exact HS|]. rewrite <- Hkey, He. exact Hname. }
      unfold saved_resources. apply list_elem_of_fmap. exists e. split; [reflexivity|exact Hin].
    + assert (resource ∉ saved_resources t) as Hfresh.
      { intros Hin. unfold saved_resources in Hin.
        apply list_elem_of_fmap in Hin as (e & -> & Hin).
        apply recorded_false in Hrecorded. apply Hrecorded.
        apply list_elem_of_fmap. exists e. split; [|exact Hin].
        rewrite list.Forall_forall in Hsaved. destruct (Hsaved e Hin) as (_ & Hkey & _).
        rewrite Hkey. exact Hname. }
      simpl. split; [|split].
      * apply list.Forall_app. split; [exact Hsaved|].
        repeat constructor; simpl; [exact HS|exact Hname|].
        rewrite (Hother resource Hfresh). reflexivity.
      * intros r Hr. unfold saved_resources in Hr. simpl in Hr.
        rewrite map_app in Hr. simpl in Hr.
        apply not_elem_of_app in Hr as [Hr Hne].
        apply not_elem_of_cons in Hne as [Hne _].
        etransitivity; [apply (Hframe r Hne)|apply Hother; exact Hr].
      * unfold saved_resources. simpl. rewrite map_app. simpl.
        apply list.NoDup_app. split; [exact Hnd|].
        split; [|apply NoDup_singleton].
        intros x Hx Hx'. apply list_elem_of_singleton in Hx'. subst x. contradiction.
Qed.

(** X17. Undoing updates.  A task that has saved nothing makes any sequence
    of [updateResource] calls on resources with distinct names; then
    [revertChanges] leaves every resource exactly as it was before the first
    call, and the task with nothing saved. *)
Theorem revertChanges_undoes_updates (w : World) (t : Task.t)
    (calls : list (nat * gmap string string * list string)) :
  updateResources t = [] ->
  (forall r1 r2,
      r1 ∈ map (fun call => fst (fst call)) calls ->
      r2 ∈ map (fun call => fst (fst call)) calls ->
      Resource.name (resource_at w r1) = Resource.name (resource_at w r2) -> r1 = r2) ->
  let after := updateResource_all w t calls in
  (forall r, resource_at (fst (revertChanges (fst after) (snd after))) r = resource_at w r)
  /\ updateResources (snd (revertChanges (fst after) (snd after))) = [].
Proof.
  intros Hnil Hinj after.
  destruct (updateResource_all_inv w t calls
              (fun r => r ∈ map (fun call => fst (fst call)) calls) Hnil Hinj)
    as (Hrec & Hsaved & Hother & Hnd).
  { apply list.Forall_forall. intros call Hin.
    apply list_elem_of_fmap. exists call. split; [reflexivity|exact Hin]. }
  fold after in Hrec, Hsaved, Hother, Hnd.
  split; [|reflexivity].
  intros r. unfold revertChanges. simpl.
  destruct (decide (r ∈ saved_resources (snd after))) as [Hin|Hnotin].
  - unfold saved_resources in Hin. apply list_elem_of_fmap in Hin as (e & -> & Hin).
    rewrite (revert_fold_saved_record _ _ e Hnd Hin).
    rewrite list.Forall_forall in Hsaved. destruct (Hsaved e Hin) as (_ & _ & ->).
    destruct (Hrec (fst (snd e))) as [a ->].
    rewrite set_attributes_twice. apply set_attributes_same.
  - rewrite revert_fold_other by exact Hnotin. apply Hother. exact Hnotin.
Qed.

Lemma revertChanges_undoes_updates_witness :
  let after :=
    updateResource_all server_world web_task
      [(0%nat, {["port" := "8080"]}, []); (0%nat, ∅, ["port"])] in
  Resource.attributes (resource_at (fst after) 0%nat) !! "port" = None
  /\ resource_at (fst (revertChanges (fst after) (snd after))) 0%nat
     = resource_at server_world 0%nat.
Proof.
  split; [reflexivity|].
  apply (revertChanges_undoes_updates server_world web_task
           [(0%nat, {["port" := "8080"]}, []); (0%nat, ∅, ["port"])]).
  - reflexivity.
  - simpl. intros r1 r2 H1 H2 _.
    apply elem_of_cons in H1 as [->|H1];
      [|apply elem_of_cons in H1 as [->|H1]; [|inversion H1]];
      (apply elem_of_cons in H2 as [->|H2];
       [|apply elem_of_cons in H2 as [->|H2]; [|inversion H2]]); reflexivity.
Defined.

End UpdateFacts.

(** ** Running a task: what every run does *)
Section RunFacts.
Import Task.

Variable dryRun : bool.

Lemma finished_returns (w w' : World) (t t' : Task.t) (s : Status.t) (c : nat) :
  finished w t s = Ok (w', t', c) -> c = newConfiguration t'.
Proof.
  unfold finished. destruct (Status.eqb s Status.notapplied).
  - destruct (oldConfiguration t); [destruct (String.eqb _ _)|]; simpl;
      intros H; inversion H; reflexivity.
  - destruct (_ && _); intros H; inversion H; reflexivity.
Qed.

(** Once the generator is entered, a call that returns has closed it and
    returns what [finished] returned, the task's new configuration. *)
Lemma drive_closes (g : Generator) :
  forall (change : Sent) (w : World) (t : Task.t) (ran : Ran),
    drive dryRun g change w t = Ok ran ->
    closed ran = true
    /\ returned ran = SentConfiguration (newConfiguration (task ran)).
Proof.
  revert g. fix IH 1. intros [send] change w t ran. simpl.
  destruct (send change w t) as [w1 t1|w1 t1 v rest].
  - simpl. intros H. inversion H. split; reflexivity.
  - destruct v as [sub configurator|run|s|].
    + destruct (runTask dryRun configurator sub w1) as [r|e]; simpl; [|discriminate].
      apply IH.
    + destruct (run w1) as [[w2 change2]|e]; simpl; [|discriminate]. apply IH.
    + destruct (finished w1 t1 s) as [[[w2 t2] c]|e] eqn:Hfin; simpl; [|discriminate].
      intros H. inversion H. simpl. split; [reflexivity|].
      f_equal. eapply finished_returns. exact Hfin.
    + simpl. intros H. inversion H. split; reflexivity.
Qed.

(** X18. Every call of [runTask] that returns has either not started the
    configurator's generator, because [canRun] did not answer true, and
    returns [Status.notapplied], or has started it, closed it and returns the
    task's new configuration: no generator is left open, whatever the
    configurator and its sub-tasks do. *)
Theorem runTask_closes_generator (configurator : Configurator) (t : Task.t)
    (w : World) (ran : Ran) :
  runTask dryRun configurator t w = Ok ran ->
  closed ran = bool_decide (Configurator_canRun configurator = Some true)
  /\ returned ran = (if closed ran
                     then SentConfiguration (newConfiguration (task ran))
                     else SentStatus Status.notapplied).
Proof.
  destruct configurator as [[[|]|] run dry]; simpl.
  - destruct (start w t) as [w1 t1]. intros H.
    apply drive_closes in H as [Hc Hr]. rewrite Hc, Hr. split; reflexivity.
  - destruct (oldConfiguration t); intros H; inversion H; split; reflexivity.
  - destruct (oldConfiguration _); intros H; inversion H; split; reflexivity.
Qed.

(** X19. Whenever, at any turn of the loop of [runTask], the generator raises
    (also [StopIteration]: it ends without having yielded a status), the
    runner closes it, records the error ["configurator.run failed"] and
    finishes the task with [error]; the exception does not leave
    [runTask]. *)
Theorem generator_exception_finishes_error
    (send : Sent -> World -> Task.t -> Outcome) (change : Sent)
    (w w' : World) (t t' : Task.t) :
  send change w t = Raises w' t' ->
  exists ran,
    drive dryRun (Gen send) change w t = Ok ran
    /\ closed ran = true
    /\ errors (task ran) = (errors t' ++ ["configurator.run failed"])%list
    /\ Configuration.computedStatus
         (configuration_at (world ran) (currentConfiguration (task ran))) = Status.error
    /\ (forall r, resource_at (world ran) r = resource_at w' r)
    /\ returned ran = SentConfiguration (newConfiguration t').
Proof.
  intros Hsend. simpl. rewrite Hsend. simpl.
  eexists. split; [reflexivity|]. simpl.
  repeat split. unfold update_configuration. simpl.
  rewrite fn_lookup_alter. reflexivity.
Qed.

End RunFacts.

(** The ["web"] task of the examples: its generator was started and is
    closed. *)
Lemma runTask_closes_generator_witness :
  exists ran,
    runTask false web_configurator web_task server_world = Ok ran
    /\ closed ran = true.
Proof.
  destruct (runTask false web_configurator web_task server_world) as [ran|e] eqn:Hrun;
    [|vm_compute in Hrun; discriminate].
  exists ran. split; [reflexivity|].
  exact (proj1 (runTask_closes_generator false web_configurator web_task server_world
                  ran Hrun)).
Defined.

(** A configurator whose generator ends at once. *)
Lemma generator_exception_finishes_error_witness :
  exists ran,
    drive false exhausted SentNone server_world web_task = Ok ran
    /\ closed ran = true
    /\ Task.errors (task ran) = ["configurator.run failed"]
    /\ Configuration.computedStatus
         (configuration_at (world ran) (Task.currentConfiguration (task ran)))
       = Status.error.
Proof.
  destruct (generator_exception_finishes_error false
              (fun _ w t => Raises w t) SentNone
              server_world server_world web_task web_task eq_refl)
    as (ran & Hrun & Hclosed & Herr & Hst & _).
  exists ran. repeat split; assumption.
Defined.

(** ** The planner: what it selects *)
Section SelectionFacts.
Import Job.

(** X20. For the values of [repair] that the options document ([None] or
    the empty str, ['error'], ['degraded']) no assertion of [checkForRepair]
    fails, and the last applied spec is selected exactly when its parameters
    have changed and the job updates, or its status is not [ok] and [repair]
    is ['degraded'], or ['error'] and the status is not [degraded]. *)
Theorem checkForRepair_documented (job : t) (lc : Configuration.t) :
  repair job ∈ [None; Some ""; Some "error"; Some "degraded"] ->
  checkForRepair job lc
  = Ok (if Configuration.hasParametersChanged lc && update job
           || negb (Status.eqb (Configuration.status lc) Status.ok)
              && (repair_is job "degraded"
                  || repair_is job "error"
                     && negb (Status.eqb (Configuration.status lc) Status.degraded))
        then Some (Configuration.configurationSpec lc) else None).
Proof.
  intros Hrep. unfold checkForRepair, repair_is.
  destruct (Configuration.hasParametersChanged lc && update job); [reflexivity|].
  repeat (apply elem_of_cons in Hrep as [->|Hrep]);
    [..|inversion Hrep]; destruct (Configuration.status lc); reflexivity.
Qed.

Lemma checkForRepair_documented_witness :
  checkForRepair defaults (Configuration.mk applied_spec 0%nat None Status.error None [] (Some []))
  = Ok (Some applied_spec).
Proof.
  apply (checkForRepair_documented defaults
           (Configuration.mk applied_spec 0%nat None Status.error None [] (Some []))).
  right. right. left.
Defined.

(** Any other value of [repair] fails an assertion as soon as a
    configuration with unchanged parameters is not [ok]. *)
Lemma checkForRepair_undocumented (job : t) (lc : Configuration.t) (r : string) :
  repair job = Some r ->
  r <> "" -> r <> "error" -> r <> "degraded" ->
  Configuration.hasParametersChanged lc && update job = false ->
  Status.eqb (Configuration.status lc) Status.ok = false ->
  checkForRepair job lc = Raise AssertionError.
Proof.
  intros Hrep He Herr Hdeg Hpar Hst. unfold checkForRepair, repair_is.
  rewrite Hpar, Hst, Hrep. simpl.
  assert (truthy r = true) as -> by (destruct r; [contradiction|reflexivity]).
  apply String.eqb_neq in Herr, Hdeg. rewrite Herr, Hdeg. simpl.
  destruct (Status.eqb _ Status.degraded); reflexivity.
Qed.

(** X21. [includeTask] never invents a spec: what it selects is the wanted
    spec it was given, or the spec of the last applied configuration, or,
    for an orphaned configuration of a job with [revertObsolete], the copy of
    that spec with intent [revert]. *)
Theorem includeTask_selects (job : t) (config : option ConfigurationSpec.t)
    (lastChange : option Configuration.t) (selected : ConfigurationSpec.t) :
  includeTask job config lastChange = Ok (Some selected) ->
  config = Some selected
  \/ exists lc,
       lastChange = Some lc
       /\ (selected = Configuration.configurationSpec lc
           \/ (config = None /\ revertObsolete job = true
               /\ ConfigurationSpec.copy_intent (Configuration.configurationSpec lc)
                    (IntentEnum Action.revert) = Ok selected)).
Proof.
  unfold includeTask.
  destruct config as [c|], lastChange as [lc|]; simpl;
    try discriminate.
  - destruct (all job); [intros [= <-]; left; reflexivity|].
    assert (checkForRepair job lc = Ok (Some selected) ->
            Some c = Some selected
            \/ exists lc0, Some lc = Some lc0
                 /\ (selected = Configuration.configurationSpec lc0
                     \/ (Some c = None /\ revertObsolete job = true
                         /\ ConfigurationSpec.copy_intent
                              (Configuration.configurationSpec lc0)
                              (IntentEnum Action.revert) = Ok selected))) as Hrepair.
    { intros H. apply checkForRepair_returns_last in H as [H|H]; [discriminate|].
      inversion H. right. exists lc. split; [reflexivity|]. left. reflexivity. }
    repeat match goal with
           | |- context [if ?b then _ else _] => destruct b
           end;
      try exact Hrepair; try discriminate; intros [= <-]; left; reflexivity.
  - destruct (all job), (add job); try discriminate;
      intros [= <-]; left; reflexivity.
  - right. exists lc. split; [reflexivity|].
    destruct (all job) eqn:Hall, (revertObsolete job) eqn:Hrev; simpl in *.
    + destruct (ConfigurationSpec.copy_intent _ _) as [s|e] eqn:Hcopy; simpl in H;
        [|discriminate]. inversion H; subst. right. auto.
    + inversion H. left. reflexivity.
    + destruct (ConfigurationSpec.copy_intent _ _) as [s|e] eqn:Hcopy; simpl in H;
        [|discriminate]. inversion H; subst. right. auto.
    + apply checkForRepair_returns_last in H as [H|H]; [discriminate|].
      inversion H. left. reflexivity.
Qed.

Lemma includeTask_selects_witness :
  includeTask defaults (Some edited_spec) None = Ok (Some edited_spec)
  /\ (Some edited_spec = Some edited_spec
      \/ exists lc,
           None = Some lc
           /\ (edited_spec = Configuration.configurationSpec lc
               \/ (Some edited_spec = None /\ revertObsolete defaults = true
                   /\ ConfigurationSpec.copy_intent (Configuration.configurationSpec lc)
                        (IntentEnum Action.revert) = Ok edited_spec))).
Proof.
  split; [reflexivity|].
  apply (includeTask_selects defaults (Some edited_spec) None edited_spec).
  reflexivity.
Defined.

End SelectionFacts.

(** ** Making tasks and choosing candidates *)
Section TaskInitFacts.

(** X22. A task for a configuration that was never applied can only be made
    on the root resource: when [Task(job, spec, None)] returns, the spec's
    target is the name of the manifest's root resource, the new configuration
    is a new object on the root with status [notapplied], it is also the
    task's current configuration, no resource has changed, and the
    configurator's class is the one registered for the spec's class name. *)
Theorem Task_init_new_on_root (w w' : World) (manifest : Manifest.t)
    (registry : Util.Registry) (spec : ConfigurationSpec.t) (t : Task.t) (class : nat) :
  Task_init w manifest registry spec None = Ok (w', t, class) ->
  Resource.name (resource_at w (Manifest.getRootResource manifest))
  = ConfigurationSpec.target spec
  /\ t = Task.mk None (next_configuration w) (next_configuration w) [] []
  /\ configuration_at w' (next_configuration w)
     = Configuration.mk spec (Manifest.getRootResource manifest) None Status.notapplied
                        None [] None
  /\ resource_at w' = resource_at w
  /\ Util.lookupClass registry (ConfigurationSpec.className spec) None None = Ok class.
Proof.
  unfold Task_init, Task_findResource, findResource, ConfigurationSpec_create.
  destruct (String.eqb _ _) eqn:Hname; simpl.
  - unfold Configuration_init. rewrite Hname. simpl.
    destruct (Util.lookupClass _ _ _ _) as [k|e]; simpl; [|discriminate].
    intros H. inversion H; subst; clear H. simpl.
    apply String.eqb_eq in Hname.
    repeat split; [exact Hname|]. apply fn_lookup_insert.
  - destruct (Resource.get_resources _) as [children|e]; simpl; [|discriminate].
    rewrite findResource_loop_spec. destruct (existsb _ _); simpl; discriminate.
Qed.

Lemma Task_init_new_on_root_witness :
  exists w' t,
    Task_init tree_world (Manifest.mk 0%nat []) {[Util.VERSION := {["Shell" := 7%nat]}]}
      (ConfigurationSpec.mk "setup" "root" "Shell" 1 "" (IntentEnum Action.instantiate))
      None = Ok (w', t, 7%nat)
    /\ Task.newConfiguration t = next_configuration tree_world.
Proof.
  destruct (Task_init tree_world (Manifest.mk 0%nat [])
              {[Util.VERSION := {["Shell" := 7%nat]}]}
              (ConfigurationSpec.mk "setup" "root" "Shell" 1 ""
                 (IntentEnum Action.instantiate)) None)
    as [[[w' t] class]|e] eqn:Hinit; [|vm_compute in Hinit; discriminate].
  destruct (Task_init_new_on_root _ _ _ _ _ _ _ Hinit) as (_ & Ht & _ & _ & Hclass).
  exists w', t. split; [|rewrite Ht; reflexivity].
  assert (class = 7%nat) as -> by (vm_compute in Hclass; congruence). reflexivity.
Defined.

(** X23. With a target that is not the root's name, [Task(job, spec, None)]
    raises: [NameError] when a direct child of the root has the name (from
    [findResource]), [AssertionError] otherwise ([Configuration] is given
    [None] as its resource), also when a deeper resource has the name. *)
Theorem Task_init_new_off_root (w : World) (manifest : Manifest.t)
    (registry : Util.Registry) (spec : ConfigurationSpec.t) (children : list nat) :
  Resource.name (resource_at w (Manifest.getRootResource manifest))
  <> ConfigurationSpec.target spec ->
  Resource.resources (resource_at w (Manifest.getRootResource manifest)) = Some children ->
  Task_init w manifest registry spec None
  = Raise (if named_at_depth w 1 (Manifest.getRootResource manifest)
                (ConfigurationSpec.target spec)
           then NameError else AssertionError).
Proof.
  intros Hname Hch.
  unfold Task_init, Task_findResource, findResource, Resource.get_resources.
  apply String.eqb_neq in Hname. cbn [named_at_depth]. rewrite Hname, !Hch. simpl.
  rewrite findResource_loop_spec.
  destruct (existsb _ _); reflexivity.
Qed.

Lemma Task_init_new_off_root_witness :
  named_at_depth tree_world 2 0 "db" = true
  /\ Task_init tree_world (Manifest.mk 0%nat []) {[Util.VERSION := {["Shell" := 7%nat]}]}
       (ConfigurationSpec.mk "setup" "db" "Shell" 1 "" (IntentEnum Action.instantiate))
       None = Raise AssertionError
  /\ Task_init tree_world (Manifest.mk 0%nat []) {[Util.VERSION := {["Shell" := 7%nat]}]}
       (ConfigurationSpec.mk "setup" "web" "Shell" 1 "" (IntentEnum Action.instantiate))
       None = Raise NameError.
Proof.
  split; [reflexivity|]. split.
  - apply (Task_init_new_off_root tree_world (Manifest.mk 0%nat []) _
             (ConfigurationSpec.mk "setup" "db" "Shell" 1 ""
                (IntentEnum Action.instantiate)) [1%nat]);
      [discriminate|reflexivity].
  - apply (Task_init_new_off_root tree_world (Manifest.mk 0%nat []) _
             (ConfigurationSpec.mk "setup" "web" "Shell" 1 ""
                (IntentEnum Action.instantiate)) [1%nat]);
      [discriminate|reflexivity].
Defined.

(** X24. A task that replaces an applied configuration is made on that
    configuration's resource, which the new spec must name as its target
    (otherwise [Configuration] fails its assertion); the computed status of
    the new configuration starts as the [status] of the old one, with its
    manual override and its dependencies taken into account. *)
Theorem Task_init_replaces (w w' : World) (manifest : Manifest.t)
    (registry : Util.Registry) (spec : ConfigurationSpec.t) (old : nat)
    (t : Task.t) (class : nat) :
  Task_init w manifest registry spec (Some old) = Ok (w', t, class) ->
  Resource.name (resource_at w (Configuration.resource (configuration_at w old)))
  = ConfigurationSpec.target spec
  /\ t = Task.mk (Some old) old (next_configuration w) [] []
  /\ configuration_at w' (next_configuration w)
     = Configuration.mk spec (Configuration.resource (configuration_at w old)) None
                        (Configuration.status (configuration_at w old)) None [] None
  /\ (old <> next_configuration w -> configuration_at w' old = configuration_at w old)
  /\ resource_at w' = resource_at w.
Proof.
  unfold Task_init, Configuration_init, ConfigurationSpec_create.
  destruct (String.eqb _ _) eqn:Hname; simpl; [|discriminate].
  destruct (Util.lookupClass _ _ _ _) as [k|e]; simpl; [|discriminate].
  intros H. inversion H; subst; clear H. simpl.
  apply String.eqb_eq in Hname.
  repeat split; [exact Hname|apply fn_lookup_insert|].
  intros Hne. apply fn_lookup_insert_ne. congruence.
Qed.

Lemma Task_init_replaces_witness :
  exists w' t,
    Task_init server_world (Manifest.mk 0%nat [])
      {[Util.VERSION := {["ShellConfigurator" := 7%nat]}]} Job.edited_spec (Some 0%nat)
    = Ok (w', t, 7%nat)
    /\ Configuration.computedStatus (configuration_at w' (Task.newConfiguration t))
       = Status.ok.
Proof.
  destruct (Task_init server_world (Manifest.mk 0%nat [])
              {[Util.VERSION := {["ShellConfigurator" := 7%nat]}]} Job.edited_spec
              (Some 0%nat))
    as [[[w' t] class]|e] eqn:Hinit; [|vm_compute in Hinit; discriminate].
  destruct (Task_init_replaces _ _ _ _ _ _ _ _ Hinit) as (_ & Ht & Hnew & _ & _).
  exists w', t. split.
  - assert (class = 7%nat) as -> by (vm_compute in Hinit; congruence). reflexivity.
  - rewrite Ht. cbn [Task.newConfiguration]. rewrite Hnew. reflexivity.
Defined.

End TaskInitFacts.

Section CandidateFacts2.

Lemma filterConfig_kept (job : Job.t) (config kept : ConfigurationSpec.t) :
  Job.filterConfig job config = Ok (Some kept) -> kept = config.
Proof.
  unfold Job.filterConfig.
  repeat match goal with
         | |- context [if ?b then _ else _] => destruct b
         end; intros H; inversion H; reflexivity.
Qed.

Lemma filterConfig_dropped (job : Job.t) (config : ConfigurationSpec.t) :
  Job.filterConfig job config = Ok None ->
  Job.readOnly job = true \/ truthy_opt (Job.resource job) = true
  \/ truthy_opt (Job.configuration job) = true.
Proof.
  unfold Job.filterConfig.
  destruct (Job.readOnly job); [auto|]. simpl.
  destruct (Job.requiredOnly job); [discriminate|].
  destruct (truthy_opt (Job.resource job)); [auto|]. simpl.
  destruct (truthy_opt (Job.configuration job)); [auto|]. simpl. discriminate.
Qed.

(** X25. Every candidate that the first loop of [getCandidateTasks] yields
    comes from a wanted spec that the runner had not handled, was selected
    by [includeTask] for that spec and the configuration popped from
    [existing] under the spec's name, and passed [filterConfig]; the specs
    before it yielded nothing, those after it are still to visit, and
    [existing] has only lost entries, the one of that name among them. *)
Theorem next_wanted_sound (job : Job.t) (workDone : Runner.workDone) (w : World)
    (existing existing' : gmap string nat) (wanted rest : list ConfigurationSpec.t)
    (cand : Candidate) :
  next_wanted job workDone w existing wanted = Ok (Some (cand, existing', rest)) ->
  exists skipped config,
    wanted = (skipped ++ config :: rest)%list
    /\ Runner.isConfigAlreadyHandled workDone config = false
    /\ Job.includeTask job (Some config) (configuration_at w <$> candidate_lastChange cand)
       = Ok (Some (candidate_spec cand))
    /\ Job.filterConfig job (candidate_spec cand) = Ok (Some (candidate_spec cand))
    /\ (forall c, candidate_lastChange cand = Some c ->
                  existing !! ConfigurationSpec.name config = Some c)
    /\ existing' !! ConfigurationSpec.name config = None
    /\ existing' ⊆ existing.
Proof.
  revert existing. induction wanted as [|config wanted IH]; intros existing; simpl;
    [discriminate|].
  assert (forall ex,
            ex ⊆ existing ->
            next_wanted job workDone w ex wanted = Ok (Some (cand, existing', rest)) ->
            exists skipped config0,
              config :: wanted = (skipped ++ config0 :: rest)%list
              /\ Runner.isConfigAlreadyHandled workDone config0 = false
              /\ Job.includeTask job (Some config0)
                   (configuration_at w <$> candidate_lastChange cand)
                 = Ok (Some (candidate_spec cand))
              /\ Job.filterConfig job (candidate_spec cand)
                 = Ok (Some (candidate_spec cand))
              /\ (forall c, candidate_lastChange cand = Some c ->
                            existing !! ConfigurationSpec.name config0 = Some c)
              /\ existing' !! ConfigurationSpec.name config0 = None
              /\ existing' ⊆ existing) as Hskip.
  { intros ex Hsub H.
    destruct (IH ex H) as (skipped & config0 & -> & Hh & Hinc & Hf & Hlast & Hnone & Hsub').
    exists (config :: skipped), config0.
    split; [reflexivity|]. split; [exact Hh|]. split; [exact Hinc|].
    split; [exact Hf|]. split; [|split; [exact Hnone|]].
    - intros c Hc. eapply lookup_weaken; [apply Hlast; exact Hc|exact Hsub].
    - etransitivity; eassumption. }
  destruct (Runner.isConfigAlreadyHandled workDone config) eqn:Hhandled.
  - apply Hskip. reflexivity.
  - destruct (Job.includeTask job (Some config) _) as [[selected|]|e] eqn:Hinc; simpl;
      [| apply Hskip, delete_subseteq | discriminate].
    destruct (Job.filterConfig job selected) as [[kept|]|e] eqn:Hf; simpl;
      [| apply Hskip, delete_subseteq | discriminate].
    intros H. inversion H; subst; clear H. simpl.
    exists [], config. split; [reflexivity|]. split; [exact Hhandled|].
    split; [exact Hinc|]. split.
    + rewrite Hf. apply filterConfig_kept in Hf. subst kept. reflexivity.
    + split; [intros c Hc; exact Hc|]. split; [apply lookup_delete_eq|].
      apply delete_subseteq.
Qed.

Lemma next_wanted_sound_witness :
  exists cand existing' rest,
    next_wanted Job.defaults [] server_world {["web" := 0%nat]}
      [Job.applied_spec; helper_spec]
    = Ok (Some (cand, existing', rest))
    /\ Job.filterConfig Job.defaults (candidate_spec cand) = Ok (Some (candidate_spec cand)).
Proof.
  destruct (next_wanted Job.defaults [] server_world {["web" := 0%nat]}
              [Job.applied_spec; helper_spec])
    as [[[[cand existing'] rest]|]|e] eqn:Hnext;
    [|vm_compute in Hnext; discriminate..].
  exists cand, existing', rest. split; [reflexivity|].
  destruct (next_wanted_sound _ _ _ _ _ _ _ _ Hnext)
    as (_ & _ & _ & _ & _ & Hf & _).
  exact Hf.
Defined.

(** X26. The second loop of [getCandidateTasks] tests [not
    self.filterConfig(config)]: every orphaned configuration it yields is
    one whose selected spec [filterConfig] has dropped, so a job with none
    of the options [readOnly], [resource] and [configuration] yields no task
    for an orphan. *)
Theorem next_orphan_yields_dropped (job : Job.t) (workDone : Runner.workDone)
    (w : World) (orphans rest : list nat) (cand : Candidate) :
  next_orphan job workDone w orphans = Ok (Some (cand, rest)) ->
  Job.filterConfig job (candidate_spec cand) = Ok None
  /\ Runner.isConfigAlreadyHandled workDone (candidate_spec cand) = false
  /\ (exists skipped change,
         orphans = (skipped ++ change :: rest)%list
         /\ candidate_lastChange cand = Some change
         /\ Job.includeTask job None (Some (configuration_at w change))
            = Ok (Some (candidate_spec cand)))
  /\ (Job.readOnly job = true \/ truthy_opt (Job.resource job) = true
      \/ truthy_opt (Job.configuration job) = true).
Proof.
  induction orphans as [|change orphans IH]; simpl; [discriminate|].
  assert (next_orphan job workDone w orphans = Ok (Some (cand, rest)) ->
          Job.filterConfig job (candidate_spec cand) = Ok None
          /\ Runner.isConfigAlreadyHandled workDone (candidate_spec cand) = false
          /\ (exists skipped change0,
                 change :: orphans = (skipped ++ change0 :: rest)%list
                 /\ candidate_lastChange cand = Some change0
                 /\ Job.includeTask job None (Some (configuration_at w change0))
                    = Ok (Some (candidate_spec cand)))
          /\ (Job.readOnly job = true \/ truthy_opt (Job.resource job) = true
              \/ truthy_opt (Job.configuration job) = true)) as Hskip.
  { intros H. destruct (IH H) as (Hf & Hh & (skipped & change0 & -> & Hl & Hinc) & Hopt).
    split; [exact Hf|]. split; [exact Hh|]. split; [|exact Hopt].
    exists (change :: skipped), change0. auto. }
  destruct (Job.includeTask job None _) as [[selected|]|e] eqn:Hinc; simpl;
    [| discriminate..].
  destruct (Runner.isConfigAlreadyHandled workDone selected) eqn:Hhandled;
    [exact Hskip|].
  destruct (Job.filterConfig job selected) as [[kept|]|e] eqn:Hf; simpl;
    [exact Hskip| |discriminate].
  intros H. inversion H; subst; clear H. simpl.
  split; [exact Hf|]. split; [exact Hhandled|]. split.
  - exists [], change. auto.
  - eapply filterConfig_dropped. exact Hf.
Qed.

Lemma next_orphan_yields_dropped_witness :
  exists cand rest,
    next_orphan (Job.mk None None true true (Some "error") false true true false false)
      [] server_world [0%nat]
    = Ok (Some (cand, rest))
    /\ Job.filterConfig
         (Job.mk None None true true (Some "error") false true true false false)
         (candidate_spec cand) = Ok None.
Proof.
  destruct (next_orphan
              (Job.mk None None true true (Some "error") false true true false false)
              [] server_world [0%nat])
    as [[[cand rest]|]|e] eqn:Hnext; [|vm_compute in Hnext; discriminate..].
  exists cand, rest. split; [reflexivity|].
  exact (proj1 (next_orphan_yields_dropped _ _ _ _ _ _ Hnext)).
Defined.

End CandidateFacts2.

Section UnfurlFilterFacts.
Import Unfurl.

(** X27. In unfurl/job.py, [filterConfig] returns the spec it was given
    with no reason, or nothing with a reason; a spec is kept only when it
    satisfies every option that is set: its intent is the str ['discover']
    for a read-only job, it is required under [requiredOnly], and its target
    is the job's [resource] and among the job's [resources]. *)
Theorem unfurl_filterConfig_sound (self : Job) (config : ConfigurationSpec)
    (target : Instance) :
  match filterConfig self config target with
  | (Some kept, reason) =>
      kept = config /\ reason = None
      /\ (readonly (jobOptions self) = true -> intent config = IntentStr "discover")
      /\ (requiredOnly (jobOptions self) = true -> required config = true)
      /\ (forall r, resource (jobOptions self) = Some r -> r <> "" ->
                    instance_name target = r)
      /\ (forall l, resources (jobOptions self) = Some l -> l <> [] ->
                    instance_name target ∈ l)
  | (None, reason) =>
      reason ∈ [Some "read only"; Some "required"; Some "resource"; Some "resources"]
  end.
Proof.
  unfold filterConfig.
  destruct (readonly (jobOptions self)
            && negb (Intent_eqb (intent config) (IntentStr "discover"))) eqn:H1;
    [cbv beta iota; left|].
  destruct (requiredOnly (jobOptions self) && negb (required config)) eqn:H2;
    [cbv beta iota; right; left|].
  destruct (truthy_opt (resource (jobOptions self)) && negb (bool_decide _)) eqn:H3;
    [cbv beta iota; do 2 right; left|].
  destruct (match resources (jobOptions self) with
            | Some (n :: l) => negb (bool_decide (instance_name target ∈ n :: l))
            | _ => false
            end) eqn:H4;
    [cbv beta iota; do 3 right; left|].
  cbv beta iota.
  split; [reflexivity|]. split; [reflexivity|]. split; [|split; [|split]].
  - intros Hro. rewrite Hro in H1. simpl in H1. apply negb_false_iff in H1.
    destruct (intent config) as [a|s]; simpl in H1; [discriminate|].
    apply String.eqb_eq in H1. congruence.
  - intros Hreq. rewrite Hreq in H2. simpl in H2. apply negb_false_iff in H2. exact H2.
  - intros r Hr Hne. rewrite Hr in H3. simpl in H3.
    assert (truthy r = true) as Ht by (destruct r; [contradiction|reflexivity]).
    rewrite Ht in H3. simpl in H3.
    apply negb_false_iff, bool_decide_eq_true in H3. congruence.
  - intros l Hl Hne. rewrite Hl in H4. destruct l as [|n l]; [contradiction|].
    apply negb_false_iff, bool_decide_eq_true in H4. exact H4.
Qed.

End UnfurlFilterFacts.

(** ** Merging and differences of maps *)
Section DictFacts.
Import Includes Templates Dicts.

Lemma Value_nested_ind (P : Value -> Prop) :
  P VNone -> (forall s, P (VStr s)) -> (forall z, P (VInt z)) ->
  (forall l, Forall P l -> P (VList l)) ->
  (forall d, Forall (fun e => P (snd e)) d -> P (VDict d)) ->
  forall v, P v.
Proof.
  intros HN HS HI HL HD. fix IH 1. intros [|s|z|l|d].
  - exact HN.
  - apply HS.
  - apply HI.
  - apply HL. induction l as [|x l IHl]; constructor; [apply IH|exact IHl].
  - apply HD. induction d as [|[k x] d IHd]; constructor; [apply IH|exact IHd].
Qed.

Lemma dict_get_elem (d : Dict) (key : string) (v : Value) :
  dict_get d key = Some v -> (key, v) ∈ d.
Proof.
  induction d as [|[k x] rest IH]; simpl; [discriminate|].
  destruct (String.eqb k key) eqn:Hk.
  - apply String.eqb_eq in Hk. intros [= <-]. subst k. left.
  - intros H. right. auto.
Qed.

Lemma dict_get_None (d : Dict) (key : string) :
  dict_get d key = None <-> key ∉ map fst d.
Proof.
  induction d as [|[k x] rest IH]; simpl.
  - split; [intros _; apply not_elem_of_nil|reflexivity].
  - destruct (String.eqb k key) eqn:Hk.
    + apply String.eqb_eq in Hk. subst k. split; [discriminate|].
      intros H. exfalso. apply H. left.
    + apply String.eqb_neq in Hk. rewrite IH. split.
      * intros H Hin. apply elem_of_cons in Hin as [?|?]; [congruence|contradiction].
      * intros H Hin. apply H. right. exact Hin.
Qed.

Lemma dict_get_unique (d : Dict) (key : string) (v : Value) :
  NoDup (map fst d) -> (key, v) ∈ d -> dict_get d key = Some v.
Proof.
  induction d as [|[k x] rest IH]; simpl; intros Hnd Hin; [inversion Hin|].
  inversion Hnd as [|? ? Hnot Hnd']; subst.
  apply elem_of_cons in Hin as [Heq|Hin].
  - inversion Heq; subst. rewrite String.eqb_refl. reflexivity.
  - destruct (String.eqb k key) eqn:Hk; [|auto].
    apply String.eqb_eq in Hk. subst k. exfalso. apply Hnot.
    apply list_elem_of_fmap. exists (key, v). split; [reflexivity|exact Hin].
Qed.

Lemma dict_mem_true (d : Dict) (key : string) :
  dict_mem d key = true <-> key ∈ map fst d.
Proof.
  unfold dict_mem. rewrite bool_decide_eq_true.
  destruct (dict_get d key) as [v|] eqn:Hget.
  - split; [intros _|intros _; eauto].
    apply dict_get_elem in Hget. apply list_elem_of_fmap.
    exists (key, v). split; [reflexivity|exact Hget].
  - apply dict_get_None in Hget. split; [intros [? [=]]|contradiction].
Qed.

Lemma dict_mem_get (d : Dict) (key : string) :
  dict_mem d key = match dict_get d key with Some _ => true | None => false end.
Proof.
  unfold dict_mem. destruct (dict_get d key).
  - apply bool_decide_eq_true_2. eauto.
  - apply bool_decide_eq_false_2. intros [? [=]].
Qed.

Lemma dict_set_keys (d : Dict) (key key' : string) (v : Value) :
  key' ∈ map fst (dict_set d key v) <-> key' = key \/ key' ∈ map fst d.
Proof.
  induction d as [|[k x] rest IH]; simpl.
  - rewrite list_elem_of_singleton. split; [auto|intros [?|H]; [auto|inversion H]].
  - destruct (String.eqb k key) eqn:Hk; simpl.
    + apply String.eqb_eq in Hk. subst k. rewrite !elem_of_cons. tauto.
    + rewrite !elem_of_cons, IH. tauto.
Qed.

Lemma dict_set_NoDup (d : Dict) (key : string) (v : Value) :
  NoDup (map fst d) -> NoDup (map fst (dict_set d key v)).
Proof.
  induction d as [|[k x] rest IH]; simpl; intros Hnd.
  - apply NoDup_singleton.
  - inversion Hnd as [|? ? Hnot Hnd']; subst.
    destruct (String.eqb k key) eqn:Hk; simpl.
    + constructor; assumption.
    + constructor; [|auto]. rewrite dict_set_keys. intros [->|Hin];
        [rewrite String.eqb_refl in Hk; discriminate|contradiction].
Qed.

(** Two maps with distinct keys that agree at every key, up to [==] on the
    values, are [==]. *)
Lemma Value_eqb_dict (d e : Dict) :
  NoDup (map fst d) -> NoDup (map fst e) ->
  (forall key,
      match dict_get d key, dict_get e key with
      | Some v, Some v' => Value_eqb v v' = true
      | None, None => True
      | _, _ => False
      end) ->
  Value_eqb (VDict d) (VDict e) = true.
Proof.
  intros Hd He Hagree. simpl. apply andb_true_intro. split.
  - apply Nat.eqb_eq. rewrite <- (length_map fst d), <- (length_map fst e).
    apply Permutation_length, NoDup_Permutation; [assumption..|].
    intros key. specialize (Hagree key).
    destruct (dict_get d key) as [v|] eqn:Hgd, (dict_get e key) as [v'|] eqn:Hge;
      try contradiction.
    + apply dict_get_elem in Hgd, Hge. split; intros _; apply list_elem_of_fmap;
        [exists (key, v')|exists (key, v)]; split; auto.
    + apply dict_get_None in Hgd, Hge. tauto.
  - assert (forall l, l ⊆ d ->
              (fix entries (d0 : Dict) : bool :=
                 match d0 with
                 | [] => true
                 | (k, v) :: d1 =>
                     match dict_get e k with
                     | Some v' => Value_eqb v v'
                     | None => false
                     end && entries d1
                 end) l = true) as Hall.
    { induction l as [|[k v] l IH]; intros Hsub; [reflexivity|].
      apply andb_true_intro. split.
      - specialize (Hagree k).
        rewrite (dict_get_unique d k v Hd) in Hagree by (apply Hsub; left).
        destruct (dict_get e k); [exact Hagree|contradiction].
      - apply IH. intros x Hx. apply Hsub. right. exact Hx. }
    apply Hall. reflexivity.
Qed.

Lemma Value_eqb_refl (v : Value) : unique_keys v = true -> Value_eqb v v = true.
Proof.
  induction v as [|s|z|l IH|d IH] using Value_nested_ind; intros Hu.
  - reflexivity.
  - apply String.eqb_refl.
  - apply Z.eqb_refl.
  - simpl in *. induction l as [|x l IHl]; [reflexivity|].
    simpl in Hu. apply andb_prop in Hu as [Hx Hl].
    inversion IH as [|? ? Px Pl]; subst.
    apply andb_true_intro. split; [apply Px; exact Hx|apply IHl; assumption].
  - simpl in Hu. apply andb_prop in Hu as [Hnd Hu].
    apply bool_decide_eq_true in Hnd.
    apply Value_eqb_dict; [assumption..|].
    intros key. destruct (dict_get d key) as [v|] eqn:Hget; [|exact I].
    apply dict_get_elem in Hget.
    rewrite list.Forall_forall in IH. apply (IH (key, v) Hget).
    rewrite forallb_forall in Hu. apply (Hu (key, v)).
    apply list_elem_of_In. exact Hget.
Qed.

Lemma mergeDicts_S (depth : nat) (b a : Dict) :
  mergeDicts (S depth) b a
  = '(cp, skip) ← mergeDicts_over (mergeDicts depth) b a [] [];
    Ok (mergeDicts_rest b cp skip).
Proof. reflexivity. Qed.

Section MergeLoopFacts.

Variable rec : Dict -> Dict -> result Dict.
Variable b : Dict.

Lemma mergeDicts_over_step (key : string) (val : Value) (rest cp : Dict)
    (skip : list string) :
  mergeDicts_over rec b ((key, val) :: rest) cp skip
  = if String.eqb key mergeStrategyKey then mergeDicts_over rec b rest cp skip
    else match merge_item rec b key val with
         | Ok (Some x) => mergeDicts_over rec b rest (dict_set cp key x) skip
         | Ok None => mergeDicts_over rec b rest cp (skip ++ [key])
         | Raise e => Raise e
         end.
Proof.
  simpl. destruct (String.eqb key mergeStrategyKey); [reflexivity|].
  unfold merge_item. destruct val as [| | | |vd]; try reflexivity.
  destruct (dict_get b key) as [[| | | |bd]|];
    repeat match goal with
           | |- context [if ?c then _ else _] => destruct c
           end; try reflexivity.
  destruct (rec bd vd); reflexivity.
Qed.

Lemma mergeDicts_over_lookup (items : Dict) :
  forall (cp : Dict) (skip : list string) (cp' : Dict) (skip' : list string)
         (key : string),
    NoDup (map fst items) ->
    mergeDicts_over rec b items cp skip = Ok (cp', skip') ->
    match dict_get items key with
    | Some v =>
        if String.eqb key mergeStrategyKey
        then dict_get cp' key = dict_get cp key /\ (key ∈ skip' <-> key ∈ skip)
        else match merge_item rec b key v with
             | Ok (Some x) => dict_get cp' key = Some x /\ (key ∈ skip' <-> key ∈ skip)
             | Ok None => dict_get cp' key = dict_get cp key /\ key ∈ skip'
             | Raise _ => False
             end
    | None => dict_get cp' key = dict_get cp key /\ (key ∈ skip' <-> key ∈ skip)
    end.
Proof.
  induction items as [|[k v] rest IH]; intros cp skip cp' skip' key Hnd Hover.
  - simpl in *. inversion Hover; subst. tauto.
  - simpl in Hnd. inversion Hnd as [|? ? Hnot Hnd']; subst.
    rewrite mergeDicts_over_step in Hover.
    assert (dict_get rest k = None) as Hfresh by (apply dict_get_None; exact Hnot).
    cbn [dict_get].
    destruct (String.eqb k key) eqn:Hk.
    + apply String.eqb_eq in Hk. subst key.
      destruct (String.eqb k mergeStrategyKey).
      * specialize (IH _ _ _ _ k Hnd' Hover). rewrite Hfresh in IH. exact IH.
      * destruct (merge_item rec b k v) as [[x|]|e]; [| |discriminate].
        -- specialize (IH _ _ _ _ k Hnd' Hover). rewrite Hfresh in IH.
           rewrite dict_get_set_eq in IH. exact IH.
        -- specialize (IH _ _ _ _ k Hnd' Hover). rewrite Hfresh in IH.
           destruct IH as [Hget Hskip]. split; [exact Hget|].
           apply Hskip, elem_of_app. right. left.
    + apply String.eqb_neq in Hk.
      assert (exists cp0 skip0,
                 mergeDicts_over rec b rest cp0 skip0 = Ok (cp', skip')
                 /\ dict_get cp0 key = dict_get cp key
                 /\ (key ∈ skip0 <-> key ∈ skip)) as (cp0 & skip0 & Hover0 & Hcp0 & Hskip0).
      { destruct (String.eqb k mergeStrategyKey); [eauto 6|].
        destruct (merge_item rec b k v) as [[x|]|e]; [| |discriminate].
        - exists (dict_set cp k x), skip. split; [exact Hover|].
          split; [apply dict_get_set_ne; exact Hk|reflexivity].
        - exists cp, (skip ++ [k])%list. split; [exact Hover|]. split; [reflexivity|].
          rewrite elem_of_app, list_elem_of_singleton. split; [|auto].
          intros [?|?]; [assumption|congruence]. }
      specialize (IH _ _ _ _ key Hnd' Hover0).
      rewrite Hcp0 in IH.
      destruct (dict_get rest key) as [v'|].
      * destruct (String.eqb key mergeStrategyKey); [rewrite <- Hskip0; exact IH|].
        destruct (merge_item rec b key v') as [[x|]|e]; [|exact IH..].
        rewrite <- Hskip0. exact IH.
      * rewrite <- Hskip0. exact IH.
Qed.

Lemma mergeDicts_over_NoDup (items : Dict) :
  forall (cp : Dict) (skip : list string) (cp' : Dict) (skip' : list string),
    NoDup (map fst cp) ->
    mergeDicts_over rec b items cp skip = Ok (cp', skip') ->
    NoDup (map fst cp').
Proof.
  induction items as [|[k v] rest IH]; intros cp skip cp' skip' Hnd Hover.
  - simpl in Hover. inversion Hover; subst. exact Hnd.
  - rewrite mergeDicts_over_step in Hover.
    destruct (String.eqb k mergeStrategyKey); [eauto|].
    destruct (merge_item rec b k v) as [[x|]|e]; [| |discriminate].
    + eapply IH; [|exact Hover]. apply dict_set_NoDup. exact Hnd.
    + eauto.
Qed.

Lemma mergeDicts_over_total (items : Dict) :
  forall (cp : Dict) (skip : list string),
    (forall key v, (key, v) ∈ items -> key <> mergeStrategyKey ->
                   exists r, merge_item rec b key v = Ok r) ->
    exists cp' skip', mergeDicts_over rec b items cp skip = Ok (cp', skip').
Proof.
  induction items as [|[k v] rest IH]; intros cp skip Hall.
  - simpl. eauto.
  - rewrite mergeDicts_over_step.
    assert (forall key v0, (key, v0) ∈ rest -> key <> mergeStrategyKey ->
                           exists r, merge_item rec b key v0 = Ok r) as Hrest.
    { intros key v0 Hin. apply Hall. right. exact Hin. }
    destruct (String.eqb k mergeStrategyKey) eqn:Hk; [apply IH; exact Hrest|].
    apply String.eqb_neq in Hk.
    destruct (Hall k v) as [r ->]; [left|exact Hk|].
    destruct r; apply IH; exact Hrest.
Qed.

Lemma mergeDicts_rest_lookup (cp : Dict) (skip : list string) (key : string) :
  dict_get (mergeDicts_rest b cp skip) key
  = match dict_get cp key with
    | Some v => Some v
    | None =>
        if String.eqb key mergeStrategyKey || bool_decide (key ∈ skip) then None
        else dict_get b key
    end.
Proof.
  unfold mergeDicts_rest. clear rec. revert cp.
  induction b as [|[k v] rest IH]; intros cp; cbn [foldl dict_get fst snd].
  - destruct (dict_get cp key); [reflexivity|]. destruct (_ || _); reflexivity.
  - rewrite IH. clear IH.
    destruct (String.eqb k mergeStrategyKey) eqn:Hstrategy.
    + destruct (dict_get cp key); [reflexivity|].
      destruct (String.eqb k key) eqn:Hk; [|reflexivity].
      apply String.eqb_eq in Hk. subst k. rewrite Hstrategy. reflexivity.
    + rewrite dict_mem_get.
      destruct (String.eqb k key) eqn:Hk.
      * apply String.eqb_eq in Hk. subst k. rewrite Hstrategy. simpl.
        destruct (dict_get cp key) as [x|] eqn:Hcp; simpl; [rewrite Hcp; reflexivity|].
        destruct (bool_decide (key ∈ skip)); simpl; [rewrite Hcp; reflexivity|].
        rewrite dict_get_set_eq. reflexivity.
      * apply String.eqb_neq in Hk.
        destruct (dict_get cp k); simpl; [reflexivity|].
        destruct (bool_decide (k ∈ skip)); simpl; [reflexivity|].
        rewrite dict_get_set_ne by exact Hk. reflexivity.
Qed.

Lemma mergeDicts_rest_NoDup (cp : Dict) (skip : list string) :
  NoDup (map fst cp) -> NoDup (map fst (mergeDicts_rest b cp skip)).
Proof.
  unfold mergeDicts_rest. clear rec. revert cp.
  induction b as [|[k v] rest IH]; intros cp Hnd; cbn [foldl fst snd]; [exact Hnd|].
  apply IH. destruct (String.eqb k mergeStrategyKey); [exact Hnd|].
  destruct (_ && _); [apply dict_set_NoDup|]; exact Hnd.
Qed.

End MergeLoopFacts.

Section DiffLoopFacts.

Variable rec : Dict -> Dict -> result Dict.
Variable new : Dict.

Lemma diffDicts_old_step (key : string) (val : Value) (rest diff : Dict) :
  diffDicts_old rec new ((key, val) :: rest) diff
  = match diff_item rec new key val with
    | Ok (Some x) => diffDicts_old rec new rest (dict_set diff key x)
    | Ok None => diffDicts_old rec new rest diff
    | Raise e => Raise e
    end.
Proof.
  simpl. unfold diff_item. destruct (dict_get new key) as [newval|]; [|reflexivity].
  destruct (Value_eqb val newval); simpl; [reflexivity|].
  destruct val as [| | | |od]; try reflexivity.
  destruct newval as [| | | |nd]; try reflexivity.
  destruct (rec od nd); reflexivity.
Qed.

Lemma diffDicts_old_lookup (items : Dict) :
  forall (diff diff' : Dict) (key : string),
    NoDup (map fst items) ->
    diffDicts_old rec new items diff = Ok diff' ->
    match dict_get items key with
    | Some val =>
        match diff_item rec new key val with
        | Ok (Some x) => dict_get diff' key = Some x
        | Ok None => dict_get diff' key = dict_get diff key
        | Raise _ => False
        end
    | None => dict_get diff' key = dict_get diff key
    end.
Proof.
  induction items as [|[k v] rest IH]; intros diff diff' key Hnd Hold.
  - simpl in *. inversion Hold; subst. reflexivity.
  - simpl in Hnd. inversion Hnd as [|? ? Hnot Hnd']; subst.
    rewrite diffDicts_old_step in Hold.
    assert (dict_get rest k = None) as Hfresh by (apply dict_get_None; exact Hnot).
    cbn [dict_get].
    destruct (String.eqb k key) eqn:Hk.
    + apply String.eqb_eq in Hk. subst key.
      destruct (diff_item rec new k v) as [[x|]|e]; [| |discriminate].
      * specialize (IH _ _ k Hnd' Hold). rewrite Hfresh, dict_get_set_eq in IH. exact IH.
      * specialize (IH _ _ k Hnd' Hold). rewrite Hfresh in IH. exact IH.
    + apply String.eqb_neq in Hk.
      assert (exists diff0,
                 diffDicts_old rec new rest diff0 = Ok diff'
                 /\ dict_get diff0 key = dict_get diff key) as (diff0 & Hold0 & Hget0).
      { destruct (diff_item rec new k v) as [[x|]|e]; [| |discriminate].
        - exists (dict_set diff k x). split; [exact Hold|].
          apply dict_get_set_ne. exact Hk.
        - exists diff. split; [exact Hold|reflexivity]. }
      specialize (IH _ _ key Hnd' Hold0). rewrite Hget0 in IH. exact IH.
Qed.

Lemma diffDicts_old_NoDup (items : Dict) :
  forall (diff diff' : Dict),
    NoDup (map fst diff) ->
    diffDicts_old rec new items diff = Ok diff' ->
    NoDup (map fst diff').
Proof.
  induction items as [|[k v] rest IH]; intros diff diff' Hnd Hold.
  - simpl in Hold. inversion Hold; subst. exact Hnd.
  - rewrite diffDicts_old_step in Hold.
    destruct (diff_item rec new k v) as [[x|]|e]; [| |discriminate].
    + eapply IH; [|exact Hold]. apply dict_set_NoDup. exact Hnd.
    + eauto.
Qed.

Lemma diffDicts_old_total (items : Dict) :
  forall (diff : Dict),
    (forall key v, (key, v) ∈ items -> exists r, diff_item rec new key v = Ok r) ->
    exists diff', diffDicts_old rec new items diff = Ok diff'.
Proof.
  induction items as [|[k v] rest IH]; intros diff Hall.
  - simpl. eauto.
  - rewrite diffDicts_old_step.
    destruct (Hall k v) as [r ->]; [left|].
    destruct r; apply IH; intros key' v' Hin; apply Hall; right; exact Hin.
Qed.

End DiffLoopFacts.

Lemma diffDicts_new_lookup (old new : Dict) :
  forall (diff : Dict) (key : string),
    NoDup (map fst new) ->
    (forall k, k ∈ map fst new -> dict_mem old k = false -> dict_get diff k = None) ->
    dict_get (diffDicts_new old diff new) key
    = match dict_get diff key with
      | Some v => Some v
      | None => if dict_mem old key then None else dict_get new key
      end.
Proof.
  unfold diffDicts_new.
  induction new as [|[k v] rest IH]; intros diff key Hnd Hfresh; cbn [foldl dict_get fst snd].
  - destruct (dict_get diff key); [reflexivity|]. destruct (dict_mem old key); reflexivity.
  - simpl in Hnd. inversion Hnd as [|? ? Hnot Hnd']; subst.
    rewrite IH; [|exact Hnd'|].
    + destruct (dict_mem old k) eqn:Hmem.
      * destruct (dict_get diff key); [reflexivity|].
        destruct (String.eqb k key) eqn:Hk; [|reflexivity].
        apply String.eqb_eq in Hk. subst k. rewrite Hmem. reflexivity.
      * destruct (String.eqb k key) eqn:Hk.
        -- apply String.eqb_eq in Hk. subst k.
           rewrite dict_get_set_eq, Hmem.
           rewrite (Hfresh key) by (left || exact Hmem). reflexivity.
        -- apply String.eqb_neq in Hk. rewrite dict_get_set_ne by exact Hk. reflexivity.
    + intros k' Hin Hmem'. destruct (dict_mem old k).
      * apply Hfresh; [right; exact Hin|exact Hmem'].
      * rewrite dict_get_set_ne by (intros ->; contradiction).
        apply Hfresh; [right; exact Hin|exact Hmem'].
Qed.

Lemma diffDicts_new_NoDup (old new diff : Dict) :
  NoDup (map fst diff) -> NoDup (map fst (diffDicts_new old diff new)).
Proof.
  unfold diffDicts_new. revert diff.
  induction new as [|[k v] rest IH]; intros diff Hnd; cbn [foldl fst snd]; [exact Hnd|].
  apply IH. destruct (dict_mem old k); [|apply dict_set_NoDup]; exact Hnd.
Qed.

(** What [diffDicts] holds at a key. *)
Lemma diffDicts_lookup (n : nat) (old new diff : Dict) (key : string) :
  NoDup (map fst old) -> NoDup (map fst new) ->
  diffDicts (S n) old new = Ok diff ->
  NoDup (map fst diff)
  /\ match dict_get old key with
     | Some val =>
         match diff_item (diffDicts n) new key val with
         | Ok r => dict_get diff key = r
         | Raise _ => False
         end
     | None => dict_get diff key = dict_get new key
     end.
Proof.
  intros Hold Hnew. simpl.
  destruct (diffDicts_old (diffDicts n) new old []) as [diff'|e] eqn:Hfirst; simpl;
    [|discriminate].
  intros [= <-].
  assert (forall k, dict_mem old k = false -> dict_get diff' k = None) as Hkeys.
  { intros k Hmem. rewrite dict_mem_get in Hmem.
    pose proof (diffDicts_old_lookup (diffDicts n) new old [] diff' k Hold Hfirst) as H.
    destruct (dict_get old k); [discriminate|exact H]. }
  split.
  - apply diffDicts_new_NoDup. eapply diffDicts_old_NoDup; [|exact Hfirst]. constructor.
  - rewrite diffDicts_new_lookup; [|exact Hnew|intros k _; apply Hkeys].
    pose proof (diffDicts_old_lookup (diffDicts n) new old [] diff' key Hold Hfirst) as H.
    rewrite dict_mem_get.
    destruct (dict_get old key) as [val|].
    + destruct (diff_item (diffDicts n) new key val) as [[x|]|e]; [| |exact H].
      * rewrite H. reflexivity.
      * rewrite H. reflexivity.
    + rewrite H. reflexivity.
Qed.

Lemma unique_keys_NoDup (d : Dict) :
  unique_keys (VDict d) = true -> NoDup (map fst d).
Proof.
  simpl. intros H. apply andb_prop in H as [H _].
  apply bool_decide_eq_true in H. exact H.
Qed.

Lemma unique_keys_entry (d : Dict) (key : string) (v : Value) :
  unique_keys (VDict d) = true -> (key, v) ∈ d -> unique_keys v = true.
Proof.
  simpl. intros H Hin. apply andb_prop in H as [_ H].
  rewrite forallb_forall in H. apply (H (key, v)). apply list_elem_of_In. exact Hin.
Qed.

Lemma no_strategy_entry (d : Dict) (key : string) (v : Value) :
  no_strategy_key (VDict d) = true -> (key, v) ∈ d ->
  key <> mergeStrategyKey /\ no_strategy_key v = true.
Proof.
  simpl. intros H Hin. rewrite forallb_forall in H.
  apply list_elem_of_In in Hin. specialize (H (key, v) Hin). simpl in H.
  apply andb_prop in H as [Hk Hv].
  split; [|exact Hv]. apply negb_true_iff, String.eqb_neq in Hk. exact Hk.
Qed.

Lemma no_strategy_get (d : Dict) :
  no_strategy_key (VDict d) = true -> dict_get d mergeStrategyKey = None.
Proof.
  intros H. destruct (dict_get d mergeStrategyKey) as [v|] eqn:Hget; [|reflexivity].
  apply dict_get_elem in Hget. apply (no_strategy_entry _ _ _ H) in Hget as [Hne _].
  contradiction.
Qed.

Lemma dict_depth_entry (d : Dict) (key : string) (v : Value) (n : nat) :
  (dict_depth (VDict d) <= S n)%nat -> (key, v) ∈ d -> (dict_depth v <= n)%nat.
Proof.
  simpl. intros H Hin. apply le_S_n in H.
  induction d as [|[k x] rest IH]; [inversion Hin|].
  simpl in H. apply elem_of_cons in Hin as [Heq|Hin].
  - inversion Heq; subst. lia.
  - apply IH; [lia|exact Hin].
Qed.

Lemma diffDicts_no_strategy (n : nat) (old new diff : Dict) :
  NoDup (map fst old) -> NoDup (map fst new) ->
  dict_get old mergeStrategyKey = None -> dict_get new mergeStrategyKey = None ->
  diffDicts n old new = Ok diff ->
  dict_get diff mergeStrategyKey = None.
Proof.
  intros Hold Hnew Ho Hn Hdiff. destruct n as [|n]; [discriminate|].
  destruct (diffDicts_lookup n old new diff mergeStrategyKey Hold Hnew Hdiff) as [_ H].
  rewrite Ho in H. rewrite H. exact Hn.
Qed.

(** A value of [new] that [mergeDicts] finds under a key of the difference
    where [old] has no map replaces what [old] has. *)
Lemma merge_item_replaces (rec : Dict -> Dict -> result Dict) (old : Dict)
    (key : string) (newval : Value) :
  no_strategy_key newval = true ->
  match dict_get old key with
  | Some (VDict _) => match newval with VDict _ => False | _ => True end
  | _ => True
  end ->
  merge_item rec old key newval = Ok (Some newval).
Proof.
  intros Hs Hold. unfold merge_item. destruct newval as [| | | |nd]; try reflexivity.
  rewrite (no_strategy_get nd Hs). simpl.
  destruct (dict_get old key) as [[| | | |od]|]; try reflexivity. contradiction.
Qed.

(** X28. [diffDicts] and [mergeDicts] fit together as the docstring of
    [diffDicts] says, old + diff = new: for two maps with distinct keys in
    which no map has the key [+%], and within the recursion limit, both calls
    return and merging the difference into [old] gives a map that is [==] to
    [new]. *)
Theorem mergeDicts_diffDicts (depth : nat) :
  forall old new : Dict,
    unique_keys (VDict old) = true -> unique_keys (VDict new) = true ->
    no_strategy_key (VDict old) = true -> no_strategy_key (VDict new) = true ->
    (dict_depth (VDict old) <= depth)%nat ->
    exists diff merged,
      diffDicts depth old new = Ok diff
      /\ mergeDicts depth old diff = Ok merged
      /\ Value_eqb (VDict merged) (VDict new) = true.
Proof.
  induction depth as [|n IH]; intros old new Huo Hun Hso Hsn Hdepth.
  - simpl in Hdepth. lia.
  - pose proof (unique_keys_NoDup _ Huo) as Hndo.
    pose proof (unique_keys_NoDup _ Hun) as Hndn.
    assert (forall key od nd,
               (key, VDict od) ∈ old -> (key, VDict nd) ∈ new ->
               exists d merged,
                 diffDicts n od nd = Ok d /\ mergeDicts n od d = Ok merged
                 /\ Value_eqb (VDict merged) (VDict nd) = true) as Hnested.
    { intros key od nd Hio Hin. apply IH.
      - exact (unique_keys_entry _ _ _ Huo Hio).
      - exact (unique_keys_entry _ _ _ Hun Hin).
      - exact (proj2 (no_strategy_entry _ _ _ Hso Hio)).
      - exact (proj2 (no_strategy_entry _ _ _ Hsn Hin)).
      - exact (dict_depth_entry _ _ _ _ Hdepth Hio). }
    assert (forall key val, (key, val) ∈ old ->
                            exists r, diff_item (diffDicts n) new key val = Ok r) as Hitem.
    { intros key val Hin. unfold diff_item.
      destruct (dict_get new key) as [newval|] eqn:Hnk; [|eauto].
      destruct (Value_eqb val newval); simpl; [eauto|].
      destruct val as [| | | |od]; eauto. destruct newval as [| | | |nd]; eauto.
      apply dict_get_elem in Hnk.
      destruct (Hnested key od nd Hin Hnk) as (d & _ & -> & _). simpl. eauto. }
    destruct (diffDicts_old_total (diffDicts n) new old [] Hitem) as [diff' Hfirst].
    assert (diffDicts (S n) old new = Ok (diffDicts_new old diff' new)) as Hdiff
      by (simpl; rewrite Hfirst; reflexivity).
    set (diff := diffDicts_new old diff' new) in *.
    assert (NoDup (map fst diff)) as Hndd
      by exact (proj1 (diffDicts_lookup n old new diff "" Hndo Hndn Hdiff)).
    assert (forall key v,
               dict_get diff key = Some v ->
               key <> mergeStrategyKey
               /\ exists r,
                    merge_item (mergeDicts n) old key v = Ok r
                    /\ match r with
                       | Some x => exists newval,
                                     dict_get new key = Some newval
                                     /\ Value_eqb x newval = true
                       | None => dict_get new key = None
                       end) as Hmerge.
    { intros key v Hdk.
      destruct (diffDicts_lookup n old new diff key Hndo Hndn Hdiff) as [_ H].
      destruct (dict_get old key) as [val|] eqn:Hok.
      - pose proof (dict_get_elem _ _ _ Hok) as Hio.
        destruct (no_strategy_entry _ _ _ Hso Hio) as [Hne Hsval].
        split; [exact Hne|].
        unfold diff_item in H. destruct (dict_get new key) as [newval|] eqn:Hnk.
        + pose proof (dict_get_elem _ _ _ Hnk) as Hin.
          destruct (no_strategy_entry _ _ _ Hsn Hin) as [_ Hsnew].
          pose proof (unique_keys_entry _ _ _ Hun Hin) as Hunew.
          destruct (Value_eqb val newval) eqn:Heq; simpl in H;
            [rewrite Hdk in H; discriminate|].
          assert (dict_get diff key = Some newval ->
                  match val with VDict _ => match newval with VDict _ => False | _ => True end
                            | _ => True end ->
                  exists r,
                    merge_item (mergeDicts n) old key v = Ok r
                    /\ match r with
                       | Some x => exists newval0,
                                     Some newval = Some newval0
                                     /\ Value_eqb x newval0 = true
                       | None => Some newval = None
                       end) as Hreplace.
          { intros Hget Hshape. rewrite Hdk in Hget. inversion Hget; subst v.
            exists (Some newval). split.
            - apply merge_item_replaces; [exact Hsnew|]. rewrite Hok. exact Hshape.
            - exists newval. split; [reflexivity|]. apply Value_eqb_refl. exact Hunew. }
          destruct val as [| | | |od]; try (apply Hreplace; [exact H|exact I]).
          destruct newval as [| | | |nd]; try (apply Hreplace; [exact H|exact I]).
          destruct (Hnested key od nd Hio Hin) as (d & merged & Hd & Hm & Heqm).
          rewrite Hd in H. simpl in H. rewrite Hdk in H. inversion H; subst v.
          exists (Some (VDict merged)). split.
          * unfold merge_item.
            rewrite (diffDicts_no_strategy n od nd d).
            -- rewrite Hok. simpl. rewrite (no_strategy_get od Hsval). simpl.
               rewrite Hm. reflexivity.
            -- exact (unique_keys_NoDup _ (unique_keys_entry _ _ _ Huo Hio)).
            -- exact (unique_keys_NoDup _ Hunew).
            -- exact (no_strategy_get od Hsval).
            -- exact (no_strategy_get nd Hsnew).
            -- exact Hd.
          * exists (VDict nd). split; [reflexivity|exact Heqm].
        + rewrite Hdk in H. inversion H; subst v.
          exists None. split; [|reflexivity].
          unfold merge_item. rewrite Hok. destruct val; reflexivity.
      - rewrite Hdk in H. symmetry in H.
        pose proof (dict_get_elem _ _ _ H) as Hin.
        destruct (no_strategy_entry _ _ _ Hsn Hin) as [Hne Hsnew].
        split; [exact Hne|]. exists (Some v). split.
        + apply merge_item_replaces; [exact Hsnew|]. rewrite Hok. exact I.
        + exists v. split; [exact H|]. apply Value_eqb_refl.
          exact (unique_keys_entry _ _ _ Hun Hin). }
    assert (forall key,
               dict_get diff key = None ->
               match dict_get old key with
               | Some val => key <> mergeStrategyKey
                             /\ exists newval,
                                  dict_get new key = Some newval
                                  /\ Value_eqb val newval = true
               | None => dict_get new key = None
               end) as Hsame.
    { intros key Hnone.
      destruct (diffDicts_lookup n old new diff key Hndo Hndn Hdiff) as [_ H].
      destruct (dict_get old key) as [val|] eqn:Hok; [|rewrite <- H; exact Hnone].
      pose proof (dict_get_elem _ _ _ Hok) as Hio.
      split; [exact (proj1 (no_strategy_entry _ _ _ Hso Hio))|].
      destruct (Hitem key val Hio) as [r Hr]. rewrite Hr in H.
      rewrite Hnone in H. subst r.
      unfold diff_item in Hr. destruct (dict_get new key) as [newval|]; [|discriminate].
      destruct (Value_eqb val newval) eqn:Heq; [eauto|]. simpl in Hr.
      destruct val as [| | | |od]; try discriminate.
      destruct newval as [| | | |nd]; try discriminate.
      destruct (diffDicts n od nd); discriminate. }
    destruct (mergeDicts_over_total (mergeDicts n) old diff [] []) as (cp & skip & Hover).
    { intros key v Hin _.
      destruct (Hmerge key v (dict_get_unique _ _ _ Hndd Hin)) as (_ & r & Hr & _).
      eauto. }
    exists diff, (mergeDicts_rest old cp skip).
    split; [exact Hdiff|]. split; [rewrite mergeDicts_S, Hover; reflexivity|].
    apply Value_eqb_dict.
    + apply mergeDicts_rest_NoDup.
      eapply mergeDicts_over_NoDup; [|exact Hover]. constructor.
    + exact Hndn.
    + intros key. rewrite mergeDicts_rest_lookup.
      pose proof (mergeDicts_over_lookup (mergeDicts n) old diff [] [] cp skip key
                    Hndd Hover) as Hl.
      destruct (dict_get diff key) as [v|] eqn:Hdk.
      * destruct (Hmerge key v Hdk) as (Hne & r & Hr & Hres).
        apply String.eqb_neq in Hne. rewrite Hne, Hr in Hl.
        destruct r as [x|].
        -- destruct Hl as [-> _]. destruct Hres as (newval & -> & Heq). exact Heq.
        -- destruct Hl as [Hcp Hskip]. simpl in Hcp. rewrite Hcp.
           rewrite (bool_decide_eq_true_2 _ Hskip), orb_true_r, Hres. exact I.
      * destruct Hl as [Hcp Hskip]. simpl in Hcp. rewrite Hcp.
        rewrite bool_decide_eq_false_2 by (rewrite Hskip; apply not_elem_of_nil).
        specialize (Hsame key Hdk).
        destruct (dict_get old key) as [val|].
        -- destruct Hsame as (Hne & newval & -> & Heq).
           apply String.eqb_neq in Hne. rewrite Hne. exact Heq.
        -- rewrite Hsame. destruct (String.eqb key mergeStrategyKey); exact I.
Qed.

Lemma mergeDicts_diffDicts_witness :
  exists diff merged,
    diffDicts 2 old_doc new_doc = Ok diff
    /\ mergeDicts 2 old_doc diff = Ok merged
    /\ Value_eqb (VDict merged) (VDict new_doc) = true.
Proof.
  apply (mergeDicts_diffDicts 2 old_doc new_doc);
    [vm_compute; reflexivity..|simpl; lia].
Defined.

(** X29. [mergeDicts(b, a)], "b is base, a overrides": in the result, a key
    that [a] does not have keeps the value of [b]; a key that [a] binds to
    anything but a map has the value of [a]; a key that [a] binds to a map
    whose [+%] is ['delete'] is absent, whatever [b] has; and [+%] itself is
    never a key of the result. *)
Theorem mergeDicts_overrides (depth : nat) (b a merged : Dict) (key : string) :
  NoDup (map fst a) ->
  key <> mergeStrategyKey ->
  mergeDicts depth b a = Ok merged ->
  dict_get merged mergeStrategyKey = None
  /\ (dict_get a key = None -> dict_get merged key = dict_get b key)
  /\ (forall v, dict_get a key = Some v -> (forall d, v <> VDict d) ->
                 dict_get merged key = Some v)
  /\ (forall vd, dict_get a key = Some (VDict vd) ->
                  dict_get vd mergeStrategyKey = Some (VStr "delete") ->
                  dict_get merged key = None).
Proof.
  intros Hnd Hne Hmerge. destruct depth as [|n]; [discriminate|].
  rewrite mergeDicts_S in Hmerge.
  destruct (mergeDicts_over (mergeDicts n) b a [] []) as [[cp skip]|e] eqn:Hover;
    [|discriminate].
  simpl in Hmerge. inversion Hmerge; subst merged. clear Hmerge.
  pose proof (mergeDicts_over_lookup (mergeDicts n) b a [] [] cp skip key Hnd Hover) as Hk.
  pose proof (mergeDicts_over_lookup (mergeDicts n) b a [] [] cp skip mergeStrategyKey
                Hnd Hover) as Hs.
  apply String.eqb_neq in Hne.
  split; [|split; [|split]].
  - rewrite mergeDicts_rest_lookup.
    assert (dict_get cp mergeStrategyKey = None) as ->.
    { destruct (dict_get a mergeStrategyKey); simpl in Hs; apply Hs. }
    reflexivity.
  - intros Ha. rewrite Ha in Hk. destruct Hk as [Hcp Hskip]. simpl in Hcp.
    rewrite mergeDicts_rest_lookup, Hcp, Hne.
    rewrite bool_decide_eq_false_2 by (rewrite Hskip; apply not_elem_of_nil).
    reflexivity.
  - intros v Ha Hv. rewrite Ha, Hne in Hk.
    assert (merge_item (mergeDicts n) b key v = Ok (Some v)) as Hitem.
    { destruct v as [| | | |d]; try reflexivity. exfalso. apply (Hv d). reflexivity. }
    rewrite Hitem in Hk. destruct Hk as [Hcp _].
    rewrite mergeDicts_rest_lookup, Hcp. reflexivity.
  - intros vd Ha Hdel. rewrite Ha, Hne in Hk.
    assert (merge_item (mergeDicts n) b key (VDict vd) = Ok None) as Hitem.
    { unfold merge_item. rewrite Hdel. simpl.
      destruct (dict_get b key) as [[| | | |bd]|]; reflexivity. }
    rewrite Hitem in Hk. destruct Hk as [Hcp Hskip]. simpl in Hcp.
    rewrite mergeDicts_rest_lookup, Hcp, Hne.
    rewrite (bool_decide_eq_true_2 _ Hskip). reflexivity.
Qed.

Lemma mergeDicts_overrides_witness :
  exists merged,
    mergeDicts 2 old_doc
      [("name", VStr "api"); ("debug", VDict [("+%", VStr "delete")]);
       ("ports", VDict [("http", VInt 8080)])] = Ok merged
    /\ dict_get merged "name" = Some (VStr "api")
    /\ dict_get merged "debug" = None
    /\ dict_get merged "ports" = Some (VDict [("http", VInt 8080); ("admin", VInt 9000)]).
Proof.
  destruct (mergeDicts 2 old_doc
              [("name", VStr "api"); ("debug", VDict [("+%", VStr "delete")]);
               ("ports", VDict [("http", VInt 8080)])]) as [merged|e] eqn:Hmerge;
    [|vm_compute in Hmerge; discriminate].
  exists merged. split; [reflexivity|].
  assert (NoDup (map fst [("name", VStr "api");
                          ("debug", VDict [("+%", VStr "delete")]);
                          ("ports", VDict [("http", VInt 8080)])])) as Hnd
    by (eapply bool_decide_eq_true_1; vm_compute; reflexivity).
  split; [|split].
  - apply (mergeDicts_overrides 2 old_doc _ merged "name" Hnd) with (v := VStr "api");
      [discriminate|exact Hmerge|reflexivity|discriminate].
  - apply (mergeDicts_overrides 2 old_doc _ merged "debug" Hnd)
      with (vd := [("+%", VStr "delete")]);
      [discriminate|exact Hmerge|reflexivity|reflexivity].
  - vm_compute in Hmerge. inversion Hmerge. reflexivity.
Defined.

(** X30. The difference of a map with itself is empty: for every map with
    distinct keys, [diffDicts(old, old)] is the empty map, and no nested call
    is made. *)
Theorem diffDicts_same (depth : nat) (old : Dict) :
  unique_keys (VDict old) = true ->
  (1 <= depth)%nat ->
  diffDicts depth old old = Ok [].
Proof.
  intros Hu Hdepth. destruct depth as [|n]; [lia|]. simpl.
  pose proof (unique_keys_NoDup _ Hu) as Hnd.
  assert (forall items diff,
             items ⊆ old ->
             diffDicts_old (diffDicts n) old items diff = Ok diff) as Hfirst.
  { induction items as [|[k v] rest IH]; intros diff Hsub; [reflexivity|].
    rewrite diffDicts_old_step. unfold diff_item.
    rewrite (dict_get_unique old k v Hnd) by (apply Hsub; left).
    rewrite Value_eqb_refl by (apply (unique_keys_entry old k v Hu), Hsub; left).
    simpl. apply IH. intros x Hx. apply Hsub. right. exact Hx. }
  rewrite Hfirst by reflexivity. simpl. f_equal.
  unfold diffDicts_new.
  assert (forall items,
             items ⊆ old ->
             foldl (fun diff e => if dict_mem old (fst e) then diff
                                  else dict_set diff (fst e) (snd e)) [] items = [])
    as Hsecond.
  { induction items as [|[k v] rest IH]; intros Hsub; [reflexivity|].
    cbn [foldl fst snd].
    assert (dict_mem old k = true) as ->.
    { apply dict_mem_true, list_elem_of_fmap. exists (k, v).
      split; [reflexivity|apply Hsub; left]. }
    apply IH. intros x Hx. apply Hsub. right. exact Hx. }
  apply Hsecond. reflexivity.
Qed.

Lemma diffDicts_same_witness : diffDicts 1 old_doc old_doc = Ok [].
Proof.
  apply (diffDicts_same 1 old_doc); [vm_compute; reflexivity|lia].
Defined.

End DictFacts.
